(** * Counterfactual monorepo: instruction schedules and the cf-wallet.js Provider

    A shallow embedding of
    - [src/src/instructions.ts]: the [Instruction] enum and the two schedule
      tables [Instructions] (initiating peer) and [AckInstructions]
      (acknowledging peer);
    - [src/packages/cf-wallet.js/src/provider.ts]: the [Provider] class, its
      pending-request table, its app-instance registry and its message
      dispatch.

    The Provider is event driven. A value of [State] is the object between
    two turns of the event loop; a turn is a call from outside, a message
    from the node, a timer firing, or the next continuation of an [await]
    running. The clock values that [new Date().valueOf()] returns are
    inputs of the turns. The methods that only shape the parameters of one
    node method ([install], [deposit], [withdraw], ...) are left out.

    The development first gives the definitions, then the theorems. *)

From Stdlib Require Import ZArith.
From stdpp Require Import gmap strings list fin_maps pretty.

Open Scope Z_scope.
Open Scope string_scope.
Open Scope list_scope.

(* ===================================================================== *)
(** ** instructions.ts *)
(* ===================================================================== *)

Module Instructions.

(** [export enum Instruction]; the members are numbered from 0 in the
    order of declaration. *)
Inductive Instruction :=
| STATE_TRANSITION_PROPOSE
| STATE_TRANSITION_COMMIT
| OP_GENERATE
| OP_SIGN
| OP_SIGN_VALIDATE
| IO_PREPARE_SEND
| IO_SEND
| IO_WAIT
| KEY_GENERATE
| ALL.

Definition Instruction_value (i : Instruction) : Z :=
  match i with
  | STATE_TRANSITION_PROPOSE => 0
  | STATE_TRANSITION_COMMIT => 1
  | OP_GENERATE => 2
  | OP_SIGN => 3
  | OP_SIGN_VALIDATE => 4
  | IO_PREPARE_SEND => 5
  | IO_SEND => 6
  | IO_WAIT => 7
  | KEY_GENERATE => 8
  | ALL => 9
  end.

#[global] Instance Instruction_eq_dec : EqDecision Instruction.
Proof. solve_decision. Defined.

(** The keys of the two schedule objects. *)
Inductive ProtocolKind := update | setup | install | uninstall.

#[global] Instance ProtocolKind_eq_dec : EqDecision ProtocolKind.
Proof. solve_decision. Defined.

(** [export let Instructions = { update: [...], setup: [...], ... }] *)
Definition Instructions (k : ProtocolKind) : list Instruction :=
  match k with
  | update =>
      [ STATE_TRANSITION_PROPOSE; OP_GENERATE; OP_SIGN; IO_PREPARE_SEND;
        IO_SEND; IO_WAIT; OP_SIGN_VALIDATE; STATE_TRANSITION_COMMIT ]
  | setup =>
      [ STATE_TRANSITION_PROPOSE; OP_GENERATE; OP_SIGN; IO_PREPARE_SEND;
        IO_SEND; IO_WAIT; OP_SIGN_VALIDATE; STATE_TRANSITION_COMMIT ]
  | install =>
      [ KEY_GENERATE; IO_PREPARE_SEND; IO_SEND; IO_WAIT;
        STATE_TRANSITION_PROPOSE; OP_GENERATE; OP_SIGN_VALIDATE; OP_SIGN;
        IO_PREPARE_SEND; IO_SEND; STATE_TRANSITION_COMMIT ]
  | uninstall =>
      [ STATE_TRANSITION_PROPOSE; OP_GENERATE; OP_SIGN; IO_PREPARE_SEND;
        IO_SEND; IO_WAIT; OP_SIGN_VALIDATE; STATE_TRANSITION_COMMIT ]
  end.

(** [export let AckInstructions = { update: [...], setup: [...], ... }] *)
Definition AckInstructions (k : ProtocolKind) : list Instruction :=
  match k with
  | update =>
      [ STATE_TRANSITION_PROPOSE; OP_GENERATE; OP_SIGN_VALIDATE; OP_SIGN;
        IO_PREPARE_SEND; IO_SEND; STATE_TRANSITION_COMMIT ]
  | setup =>
      [ STATE_TRANSITION_PROPOSE; OP_GENERATE; OP_SIGN_VALIDATE; OP_SIGN;
        IO_PREPARE_SEND; IO_SEND; STATE_TRANSITION_COMMIT ]
  | install =>
      [ KEY_GENERATE; STATE_TRANSITION_PROPOSE; OP_GENERATE; OP_SIGN;
        IO_PREPARE_SEND; IO_SEND; IO_WAIT; OP_SIGN_VALIDATE;
        STATE_TRANSITION_COMMIT ]
  | uninstall =>
      [ STATE_TRANSITION_PROPOSE; OP_GENERATE; OP_SIGN_VALIDATE; OP_SIGN;
        IO_PREPARE_SEND; IO_SEND; STATE_TRANSITION_COMMIT ]
  end.

(** The two roles of a protocol run and the schedule each one walks. *)
Inductive Role := Initiator | Acknowledger.

Definition schedule (r : Role) (k : ProtocolKind) : list Instruction :=
  match r with
  | Initiator => Instructions k
  | Acknowledger => AckInstructions k
  end.

(** Position of the first occurrence of a step, as [Array.indexOf]
    (with [None] for -1). *)
Fixpoint indexOf (x : Instruction) (l : list Instruction) : option nat :=
  match l with
  | [] => None
  | y :: l' => if decide (x = y) then Some 0%nat else S <$> indexOf x l'
  end.

(** [a] is placed before [b] in a schedule: both steps occur, and the first
    occurrence of [a] comes before the first occurrence of [b]. *)
Definition placed_before (a b : Instruction) (l : list Instruction) : Prop :=
  ∃ i j, indexOf a l = Some i ∧ indexOf b l = Some j ∧ (i < j)%nat.

#[global] Instance placed_before_dec a b l : Decision (placed_before a b l).
Proof.
  unfold placed_before.
  destruct (indexOf a l) as [i|]; [|right; intros (?&?&?&_); discriminate].
  destruct (indexOf b l) as [j|]; [|right; intros (?&?&_&?&_); discriminate].
  destruct (decide (i < j)%nat) as [H|H].
  - left. eauto.
  - right. intros (i'&j'&Hi&Hj&Hlt). simplify_eq. lia.
Defined.

End Instructions.

(* ===================================================================== *)
(** ** packages/cf-wallet.js/src/provider.ts: data *)
(* ===================================================================== *)

Module Provider.

(** [export const NODE_REQUEST_TIMEOUT = 30000;] *)
Definition NODE_REQUEST_TIMEOUT : Z := 30000.

(** [AppInstanceInfo | AppInstanceJson]: the details of an app instance as
    the node reports them. Only [identityHash] is read by the Provider; the
    other fields are carried along. *)
Record AppInstanceInfo := {
  identityHash : string;
  otherFields : list (string * string)
}.

(** Modelled from the spec: class [AppInstance] of [./app-instance], which
    is not among the sources. The spec's AppInstanceRecord is built from the
    details handed to its constructor and carries their identity
    ([data.appInstance.identityHash] is the [identityHash] of the payload it
    was built from). The second constructor argument, the provider itself,
    is left out. *)
Record AppInstance := { info : AppInstanceInfo }.

Definition new_AppInstance (i : AppInstanceInfo) : AppInstance := {| info := i |}.

Definition AppInstance_identityHash (a : AppInstance) : string :=
  identityHash (info a).

(** [Node.MethodParams], as far as the Provider builds them itself. *)
Inductive MethodParams :=
| AppInstanceIdParams (appInstanceId : string)       (* { appInstanceId } *)
| OtherParams (fields : list (string * string)).

(** What travels next to the [type] tag of a payload. The constructors are
    the TypeScript types the handlers cast the payload to. *)
Inductive Body :=
| ErrorData (errorName : string) (message : option string)
    (* data: { errorName, message? } *)
| InstallEventData (appInstanceId : string)
    (* data: { appInstanceId }, Node.InstallEventData *)
| InstallVirtualEventData (appInstanceId : string)
    (* data: { params: { appInstanceId } } *)
| RejectInstallEventData (appInstance : AppInstanceInfo)
    (* data: { appInstance }, Node.RejectInstallEventData *)
| GetAppInstanceDetailsResult (appInstance : AppInstanceInfo)
    (* result: { appInstance }, Node.GetAppInstanceDetailsResult *)
| AppInstanceData (appInstance : AppInstance)
    (* data: { appInstance } of a published event *)
| PrototypeMemberData (name : string)
    (* data: { appInstance } of a published event whose [appInstance] is
       the member [name] of [Object.prototype] *)
| OtherData (fields : list (string * string)).

(** An object with a [type] tag: the [result] of a JSON-RPC message, a
    plain [Node.Event], or an event published by the Provider. *)
Record Payload := { type : string; body : Body }.

(** The request handed to the transport, as [jsonRpcDeserialize] returns it. *)
Record RpcRequest := {
  methodName : string;
  parameters : MethodParams;
  request_id : Z
}.

(** [JsonRpcResponse] (with [id]) and [JsonRpcNotification] (without):
    [{ jsonrpc: "2.0", result, id? }]. *)
Record JsonRpcResponse := { result : Payload; id : option Z }.

(** [JsonRpcNotification | JsonRpcResponse | Node.Event]: what the transport
    delivers. [Rpc] are the messages with a [jsonrpc] field. *)
Inductive Message :=
| Rpc (m : JsonRpcResponse)
| PlainEvent (e : Payload).

(** Equality of the data above is decidable. *)
#[global] Instance AppInstanceInfo_eq_dec : EqDecision AppInstanceInfo.
Proof. solve_decision. Defined.
#[global] Instance AppInstance_eq_dec : EqDecision AppInstance.
Proof. solve_decision. Defined.
#[global] Instance MethodParams_eq_dec : EqDecision MethodParams.
Proof. solve_decision. Defined.
#[global] Instance Body_eq_dec : EqDecision Body.
Proof. solve_decision. Defined.
#[global] Instance Payload_eq_dec : EqDecision Payload.
Proof. solve_decision. Defined.
#[global] Instance RpcRequest_eq_dec : EqDecision RpcRequest.
Proof. solve_decision. Defined.
#[global] Instance JsonRpcResponse_eq_dec : EqDecision JsonRpcResponse.
Proof. solve_decision. Defined.
#[global] Instance Message_eq_dec : EqDecision Message.
Proof. solve_decision. Defined.

(** Modelled from the spec: [jsonRpcDeserialize] of the rpc-server package,
    which is not among the sources. It turns the request envelope
    [{ jsonrpc, method, params, id }] of the spec's external interfaces into
    the request object whose [methodName] the Provider tests. *)
Definition jsonRpcDeserialize (params : MethodParams) (method : string)
    (requestId : Z) : RpcRequest :=
  {| methodName := method; parameters := params; request_id := requestId |}.

(** Modelled from the spec: [jsonRpcSerializeAsResponse] of the rpc-server
    package, which is not among the sources. It wraps a payload into the
    response envelope [{ jsonrpc, result, id }] of the spec's external
    interfaces. *)
Definition jsonRpcSerializeAsResponse (r : Payload) (requestId : Z)
    : JsonRpcResponse :=
  {| result := r; id := Some requestId |}.

(** The enum members and the serializer the Provider imports: their values
    are fixed outside the sources, so they are parameters of the model.
    [Node.ErrorType] has the one member the sources name, [ERROR]. *)
Record NodeTypes := {
  ErrorType_ERROR : string;                         (* Node.ErrorType.ERROR *)
  EventType_ERROR : string;                         (* EventType.ERROR *)
  EventType_INSTALL : string;
  EventType_INSTALL_VIRTUAL : string;
  EventType_REJECT_INSTALL : string;
  EventName_INSTALL : string;                       (* Node.EventName.INSTALL *)
  EventName_INSTALL_VIRTUAL : string;
  EventName_REJECT_INSTALL : string;
  RpcMethodName_GET_APP_INSTANCE_DETAILS : string;  (* Node.RpcMethodName *)
  JSON_stringify_request : RpcRequest → string;     (* JSON.stringify(request) *)
  JSON_stringify_response : JsonRpcResponse → string
}.

(** [Object.values(Node.ErrorType)] *)
Definition ErrorType_values (T : NodeTypes) : list string := [ErrorType_ERROR T].

(** A handle for the promise one [callRawNodeMethod] call returns. *)
Definition CallId := nat.

(** What a [reject] is called with, or what an async function throws. *)
Inductive Thrown :=
| ThrownResponse (r : JsonRpcResponse)   (* reject(jsonRpcSerializeAsResponse(...)) *)
| ThrownPayload (p : Payload)            (* reject({ type, data }) *)
| ThrownTypeError.

(** One invocation of a promise's [resolve] or [reject]. *)
Inductive Settlement :=
| Resolve (p : Payload)
| Reject (e : Thrown).

(** What an [await] inside the Provider continues with. *)
Inductive Value :=
| VPayload (p : Payload)
| VAppInstance (a : AppInstance)
| VPrototypeMember (name : string)   (* the member [name] of [Object.prototype] *)
| VThrown (e : Thrown).

Definition Settlement_value (v : Settlement) : Value :=
  match v with
  | Resolve p => VPayload p
  | Reject e => VThrown e
  end.

(** The code after an [await], one constructor per [await] of the class:
    - [KCaller]: the promise was handed to code outside the class;
    - [KEmit topic]: the rest of [handleInstallEvent],
      [handleInstallVirtualEvent] and [handleRejectInstallEvent] after
      [await this.getOrCreateAppInstance(...)];
    - [KFetched id k]: the rest of [getOrCreateAppInstance] after
      [await this.callRawNodeMethod(...)], returning to [k]. *)
Inductive Cont :=
| KCaller
| KEmit (topic : string)
| KFetched (appInstanceId : string) (k : Cont).

(** The closure stored in [requestListeners]: it captures [methodName],
    [requestId] and the [resolve]/[reject] pair of its promise. *)
Record Listener := {
  l_methodName : string;
  l_requestId : Z;
  l_call : CallId
}.

(** The closure handed to [setTimeout], with its delay: it captures
    [requestId], [request] and [reject]. *)
Record Timer := {
  t_delay : Z;
  t_requestId : Z;
  t_request : RpcRequest;
  t_call : CallId
}.

(** The names of the members every object literal inherits from
    [Object.prototype]. The registry is the object literal [{}]: for these
    names [name in this.appInstances] is true and [this.appInstances[name]]
    is the inherited member, also when nothing was stored under the name. *)
Definition Object_prototype_names : list string :=
  [ "constructor"; "hasOwnProperty"; "isPrototypeOf"; "propertyIsEnumerable";
    "toLocaleString"; "toString"; "valueOf"; "__proto__";
    "__defineGetter__"; "__defineSetter__";
    "__lookupGetter__"; "__lookupSetter__" ].

(** The Provider object and what it has done to its surroundings.
    The two tables are JavaScript objects used as maps; the maps below hold
    their own properties. The keys of [requestListeners] are numbers; the
    keys of [appInstances] are strings from outside, which can also name a
    member the object inherits ([Object_prototype_names]). *)
Record State := {
  requestListeners : gmap Z Listener;
  appInstances : gmap string AppInstance;
  emitted : list (string * Payload);      (* eventEmitter.emit(topic, payload) *)
  sent : list RpcRequest;                 (* nodeProvider.sendMessage(request) *)
  timers : list Timer;                    (* armed, not yet fired *)
  calls : list Cont;                      (* promises by [CallId], with their awaiter *)
  settled : list (CallId * Settlement);   (* every resolve/reject invocation *)
  jobs : list (Cont * Value);             (* continuations ready to run *)
  delivered : list Value                  (* values that reached outside code *)
}.

Definition initial : State :=
  {| requestListeners := ∅; appInstances := ∅; emitted := []; sent := [];
     timers := []; calls := []; settled := []; jobs := []; delivered := [] |}.

(** Field updates. *)
Definition set_requestListeners (f : gmap Z Listener → gmap Z Listener)
    (s : State) : State :=
  {| requestListeners := f (requestListeners s); appInstances := appInstances s;
     emitted := emitted s; sent := sent s; timers := timers s; calls := calls s;
     settled := settled s; jobs := jobs s; delivered := delivered s |}.

Definition set_appInstances (f : gmap string AppInstance → gmap string AppInstance)
    (s : State) : State :=
  {| requestListeners := requestListeners s; appInstances := f (appInstances s);
     emitted := emitted s; sent := sent s; timers := timers s; calls := calls s;
     settled := settled s; jobs := jobs s; delivered := delivered s |}.

Definition set_emitted (f : list (string * Payload) → list (string * Payload))
    (s : State) : State :=
  {| requestListeners := requestListeners s; appInstances := appInstances s;
     emitted := f (emitted s); sent := sent s; timers := timers s; calls := calls s;
     settled := settled s; jobs := jobs s; delivered := delivered s |}.

Definition set_sent (f : list RpcRequest → list RpcRequest) (s : State) : State :=
  {| requestListeners := requestListeners s; appInstances := appInstances s;
     emitted := emitted s; sent := f (sent s); timers := timers s; calls := calls s;
     settled := settled s; jobs := jobs s; delivered := delivered s |}.

Definition set_timers (f : list Timer → list Timer) (s : State) : State :=
  {| requestListeners := requestListeners s; appInstances := appInstances s;
     emitted := emitted s; sent := sent s; timers := f (timers s); calls := calls s;
     settled := settled s; jobs := jobs s; delivered := delivered s |}.

Definition set_calls (f : list Cont → list Cont) (s : State) : State :=
  {| requestListeners := requestListeners s; appInstances := appInstances s;
     emitted := emitted s; sent := sent s; timers := timers s; calls := f (calls s);
     settled := settled s; jobs := jobs s; delivered := delivered s |}.

Definition set_settled (f : list (CallId * Settlement) → list (CallId * Settlement))
    (s : State) : State :=
  {| requestListeners := requestListeners s; appInstances := appInstances s;
     emitted := emitted s; sent := sent s; timers := timers s; calls := calls s;
     settled := f (settled s); jobs := jobs s; delivered := delivered s |}.

Definition set_jobs (f : list (Cont * Value) → list (Cont * Value))
    (s : State) : State :=
  {| requestListeners := requestListeners s; appInstances := appInstances s;
     emitted := emitted s; sent := sent s; timers := timers s; calls := calls s;
     settled := settled s; jobs := f (jobs s); delivered := delivered s |}.

Definition set_delivered (f : list Value → list Value) (s : State) : State :=
  {| requestListeners := requestListeners s; appInstances := appInstances s;
     emitted := emitted s; sent := sent s; timers := timers s; calls := calls s;
     settled := settled s; jobs := jobs s; delivered := f (delivered s) |}.

(** The result of running a synchronous entry point of the class. *)
Inductive Outcome :=
| Ok (s : State)
| TypeError    (* a property of [undefined] is read: the entry point throws *)
| IllTyped.    (* the payload is not of the type the handler casts it to *)

(* ===================================================================== *)
(** ** packages/cf-wallet.js/src/provider.ts: the class *)
(* ===================================================================== *)

Section Operations.
Context (T : NodeTypes).

(** [this.eventEmitter.emit(topic, payload)] *)
Definition emit (topic : string) (p : Payload) : State → State :=
  set_emitted (λ l, l ++ [(topic, p)]).

(** [this.nodeProvider.sendMessage(request)] *)
Definition sendMessage (r : RpcRequest) : State → State :=
  set_sent (λ l, l ++ [r]).

(** How often [resolve] or [reject] of call [c] has been invoked. *)
Definition settle_count (c : CallId) (s : State) : nat :=
  length (filter (λ e, e.1 = c) (settled s)).

(** An invocation of [resolve] or [reject] of call [c]. Every invocation is
    logged; as for any promise, only the first one decides the promise and
    makes the code awaiting it ready to run. *)
Definition settle (c : CallId) (v : Settlement) (s : State) : State :=
  let s1 := set_settled (λ l, l ++ [(c, v)]) s in
  if decide (settle_count c s = 0%nat) then
    match calls s !! c with
    | Some k => set_jobs (λ l, l ++ [(k, Settlement_value v)]) s1
    | None => s1
    end
  else s1.

(** An async function returns (or throws) [v] to the code awaiting it. *)
Definition resume (k : Cont) (v : Value) : State → State :=
  set_jobs (λ l, l ++ [(k, v)]).

(** [!request.methodName]: a method name that is absent or empty. Both are
    the empty string here. *)
Definition falsy (name : string) : bool := bool_decide (name = "").

(** The listener of lines 286-315, applied to a response. *)
Definition listener (l : Listener) (response : JsonRpcResponse) (s : State)
    : State :=
  let r := result response in
  if decide (type r = ErrorType_ERROR T) then
    settle (l_call l)
      (Reject (ThrownResponse
         (jsonRpcSerializeAsResponse
            {| type := EventType_ERROR T; body := body r |}
            (l_requestId l)))) s
  else if decide (type r ≠ l_methodName l) then
    settle (l_call l)
      (Reject (ThrownResponse
         (jsonRpcSerializeAsResponse
            {| type := EventType_ERROR T;
               body := ErrorData "unexpected_message_type"
                         (Some ("Unexpected response type. Expected "
                                +:+ l_methodName l +:+ ", got " +:+ type r)) |}
            (l_requestId l)))) s
  else settle (l_call l) (Resolve r) s.

(** The timer callback of lines 317-327. *)
Definition onTimeout (t : Timer) (s : State) : State :=
  match requestListeners s !! t_requestId t with
  | Some _ =>
      let s1 :=
        settle (t_call t)
          (Reject (ThrownPayload
             {| type := EventType_ERROR T;
                body := ErrorData "request_timeout"
                          (Some ("Request timed out: "
                                 +:+ JSON_stringify_request T (t_request t))) |}))
          s in
      set_requestListeners (delete (t_requestId t)) s1
  | None => s
  end.

(** [handleNodeError(error: JsonRpcResponse)]. The guard
    [requestId && this.requestListeners[requestId]] fails for a missing id
    and for the id 0. *)
Definition handleNodeError (error : JsonRpcResponse) (s : State) : State :=
  let s1 :=
    match id error with
    | Some requestId =>
        if decide (requestId ≠ 0) then
          match requestListeners s !! requestId with
          | Some l =>
              set_requestListeners (delete requestId) (listener l error s)
          | None => s
          end
        else s
    | None => s
    end in
  emit (type (result error)) (result error) s1.

(** [handleNodeMethodResponse(response)], called for messages that have
    an [id], here [i]. *)
Definition handleNodeMethodResponse (response : JsonRpcResponse) (i : Z)
    (s : State) : State :=
  match requestListeners s !! i with
  | Some l => set_requestListeners (delete i) (listener l response s)
  | None =>
      let error :=
        jsonRpcSerializeAsResponse
          {| type := EventType_ERROR T;
             body := ErrorData "orphaned_response"
                       (Some ("Response has no corresponding inflight request: "
                              +:+ JSON_stringify_response T response)) |}
          i in
      emit (type (result error)) (result error) s
  end.

(** [callRawNodeMethod(methodName, params)]. [now] is the value of
    [new Date().valueOf()] at the call and [k] the code that awaits the
    returned promise. *)
Definition callRawNodeMethod (now : Z) (method : string) (params : MethodParams)
    (k : Cont) (s : State) : State :=
  let requestId := now in
  let c : CallId := length (calls s) in
  let s0 := set_calls (λ l, l ++ [k]) s in
  let request := jsonRpcDeserialize params method requestId in
  if falsy (methodName request) then
    handleNodeError
      {| result := {| type := EventType_ERROR T;
                      body := ErrorData "unexpected_event_type" None |};
         id := Some requestId |}
      s0
  else
    let s1 :=
      set_requestListeners
        (insert requestId
           {| l_methodName := method; l_requestId := requestId; l_call := c |})
        s0 in
    let s2 :=
      set_timers
        (λ l, l ++ [ {| t_delay := NODE_REQUEST_TIMEOUT; t_requestId := requestId;
                        t_request := request; t_call := c |} ])
        s1 in
    sendMessage request s2.

(** [getOrCreateAppInstance(id, info?)], returning to [k]. The test
    [id in this.appInstances] holds for a stored record and for a name the
    registry inherits; in both cases [this.appInstances[id]] is returned and
    nothing is stored or sent. *)
Definition getOrCreateAppInstance (now : Z) (appInstanceId : string)
    (hint : option AppInstanceInfo) (k : Cont) (s : State) : State :=
  match appInstances s !! appInstanceId with
  | Some a => resume k (VAppInstance a) s
  | None =>
      if decide (appInstanceId ∈ Object_prototype_names) then
        resume k (VPrototypeMember appInstanceId) s
      else
        match hint with
        | Some newInfo =>
            let a := new_AppInstance newInfo in
            resume k (VAppInstance a)
              (set_appInstances (insert appInstanceId a) s)
        | None =>
            callRawNodeMethod now (RpcMethodName_GET_APP_INSTANCE_DETAILS T)
              (AppInstanceIdParams appInstanceId) (KFetched appInstanceId k) s
        end
  end.

(** [handleGenericEvent(nodeEvent)] *)
Definition handleGenericEvent (nodeEvent : Payload) (s : State) : State :=
  emit (type nodeEvent) nodeEvent s.

(** [handleInstallEvent(nodeEvent)], up to its [await]. *)
Definition handleInstallEvent (now : Z) (nodeEvent : Payload) (s : State)
    : Outcome :=
  match body nodeEvent with
  | InstallEventData appInstanceId =>
      Ok (getOrCreateAppInstance now appInstanceId None
            (KEmit (EventType_INSTALL T)) s)
  | _ => IllTyped
  end.

(** [handleInstallVirtualEvent(nodeEvent)], up to its [await]. *)
Definition handleInstallVirtualEvent (now : Z) (nodeEvent : Payload) (s : State)
    : Outcome :=
  match body nodeEvent with
  | InstallVirtualEventData appInstanceId =>
      Ok (getOrCreateAppInstance now appInstanceId None
            (KEmit (EventType_INSTALL_VIRTUAL T)) s)
  | _ => IllTyped
  end.

(** [handleRejectInstallEvent(nodeEvent)], up to its [await]. *)
Definition handleRejectInstallEvent (now : Z) (nodeEvent : Payload) (s : State)
    : Outcome :=
  match body nodeEvent with
  | RejectInstallEventData appInstance =>
      Ok (getOrCreateAppInstance now (identityHash appInstance) (Some appInstance)
            (KEmit (EventType_REJECT_INSTALL T)) s)
  | _ => IllTyped
  end.

(** [handleNodeEvent(event)]: the [switch] on [nodeEvent.type], its cases
    tried in the order they are written. *)
Definition handleNodeEvent (now : Z) (event : Message) (s : State) : Outcome :=
  let nodeEvent :=
    match event with
    | Rpc m => result m
    | PlainEvent e => e
    end in
  if decide (type nodeEvent = EventName_REJECT_INSTALL T) then
    handleRejectInstallEvent now nodeEvent s
  else if decide (type nodeEvent = EventName_INSTALL T) then
    handleInstallEvent now nodeEvent s
  else if decide (type nodeEvent = EventName_INSTALL_VIRTUAL T) then
    handleInstallVirtualEvent now nodeEvent s
  else Ok (handleGenericEvent nodeEvent s).

(** The [type] tag [onNodeMessage] reads: [message.result.type] for a
    message with a [jsonrpc] field, [message.type] otherwise. *)
Definition message_type (message : Message) : string :=
  match message with
  | Rpc m => type (result m)
  | PlainEvent e => type e
  end.

(** [onNodeMessage(message)], the handler registered with the transport.
    [now] is the clock value a request issued while handling reads.
    [message as JsonRpcResponse] on a plain event gives an object without
    [id] and without [result]: [handleNodeError] skips its guard and then
    throws on [error.result.type]. *)
Definition onNodeMessage (now : Z) (message : Message) (s : State) : Outcome :=
  if decide (message_type message ∈ ErrorType_values T) then
    match message with
    | Rpc m => Ok (handleNodeError m s)
    | PlainEvent _ => TypeError
    end
  else
    match message with
    | Rpc m =>
        match id m with
        | Some i => Ok (handleNodeMethodResponse m i s)     (* "id" in message *)
        | None => handleNodeEvent now message s
        end
    | PlainEvent _ => handleNodeEvent now message s
    end.

(** The code after an [await], run with the value awaited. *)
Definition runJob (j : Cont * Value) (s : State) : State :=
  match j with
  | (KCaller, v) => set_delivered (λ l, l ++ [v]) s
  | (KEmit topic, VAppInstance a) =>
      (* const event = { type, data: { appInstance } };
         return this.eventEmitter.emit(event.type, event); *)
      let event := {| type := topic; body := AppInstanceData a |} in
      emit (type event) event s
  | (KEmit topic, VPrototypeMember name) =>
      (* the same code, [appInstance] being the inherited member *)
      let event := {| type := topic; body := PrototypeMemberData name |} in
      emit (type event) event s
  | (KEmit _, _) => s            (* the handler's promise rejects, unobserved *)
  | (KFetched appInstanceId k, VPayload p) =>
      (* newInfo = (result as Node.GetAppInstanceDetailsResult).appInstance;
         this.appInstances[id] = new AppInstance(newInfo, this);
         return this.appInstances[id]; *)
      match body p with
      | GetAppInstanceDetailsResult newInfo =>
          let a := new_AppInstance newInfo in
          resume k (VAppInstance a)
            (set_appInstances (insert appInstanceId a) s)
      | _ => resume k (VThrown ThrownTypeError) s
      end
  | (KFetched _ k, VThrown e) => resume k (VThrown e) s
  | (KFetched _ _, VAppInstance _) => s
  | (KFetched _ _, VPrototypeMember _) => s
  end.

(** What happens to a Provider, one turn at a time. *)
Inductive Event :=
| CallRawNodeMethod (now : Z) (method : string) (params : MethodParams)
| GetOrCreateAppInstance (now : Z) (appInstanceId : string)
    (hint : option AppInstanceInfo)
| NodeMessage (now : Z) (message : Message)
| TimerFires (c : CallId)
| RunJob.

#[global] Instance Event_eq_dec : EqDecision Event.
Proof. solve_decision. Defined.

(** The timer armed by call [c] fires: it leaves the armed timers and its
    callback runs. *)
Definition fireTimer (c : CallId) (s : State) : State :=
  match list_find (λ t, t_call t = c) (timers s) with
  | Some (i, t) => onTimeout t (set_timers (delete i) s)
  | None => s
  end.

(** The oldest ready continuation runs. *)
Definition runNextJob (s : State) : State :=
  match jobs s with
  | [] => s
  | j :: rest => runJob j (set_jobs (λ _, rest) s)
  end.

Definition step (e : Event) (s : State) : Outcome :=
  match e with
  | CallRawNodeMethod now method params =>
      Ok (callRawNodeMethod now method params KCaller s)
  | GetOrCreateAppInstance now appInstanceId hint =>
      Ok (getOrCreateAppInstance now appInstanceId hint KCaller s)
  | NodeMessage now message => onNodeMessage now message s
  | TimerFires c => Ok (fireTimer c s)
  | RunJob => Ok (runNextJob s)
  end.

(** A sequence of turns; a turn that throws ends the run. *)
Fixpoint run (es : list Event) (s : State) : Outcome :=
  match es with
  | [] => Ok s
  | e :: es' =>
      match step e s with
      | Ok s' => run es' s'
      | failure => failure
      end
  end.

End Operations.

(* ===================================================================== *)
(** ** What a turn does to the pending-request machinery *)
(* ===================================================================== *)

(** The pending table, the armed timers, the log of settlements and the
    promises: a turn changes them in one of five ways. *)
Inductive Effect :=
| Quiet                   (* not at all *)
| Answered (i : Z)        (* the listener under id [i] is called and removed *)
| Expired (c : CallId)    (* the timer armed by call [c] fires *)
| Issued (now : Z)        (* a request with id [now] is registered and sent *)
| Malformed (now : Z).    (* a call is refused: handleNodeError runs with id [now] *)

#[global] Instance Effect_eq_dec : EqDecision Effect.
Proof. solve_decision. Defined.

Definition same_pending (s s' : State) : Prop :=
  requestListeners s' = requestListeners s ∧ settled s' = settled s.

Definition listener_called (i : Z) (s s' : State) : Prop :=
  ∃ l v, requestListeners s !! i = Some l ∧
         requestListeners s' = delete i (requestListeners s) ∧
         settled s' = settled s ++ [(l_call l, v)].

Definition effect (eff : Effect) (s s' : State) : Prop :=
  match eff with
  | Quiet =>
      same_pending s s' ∧ timers s' = timers s ∧ calls s' = calls s
  | Answered i =>
      listener_called i s s' ∧ timers s' = timers s ∧ calls s' = calls s
  | Expired c =>
      ∃ j t, timers s !! j = Some t ∧ t_call t = c ∧
             (∀ j' t', timers s !! j' = Some t' → (j' < j)%nat → t_call t' ≠ c) ∧
             timers s' = delete j (timers s) ∧ calls s' = calls s ∧
             ((requestListeners s !! t_requestId t = None ∧ same_pending s s') ∨
              (∃ l v, requestListeners s !! t_requestId t = Some l ∧
                      requestListeners s' = delete (t_requestId t) (requestListeners s) ∧
                      settled s' = settled s ++ [(c, v)]))
  | Issued now =>
      ∃ m t k, l_call m = length (calls s) ∧ l_requestId m = now ∧
               t_call t = length (calls s) ∧ t_requestId t = now ∧
               requestListeners s' = <[now := m]> (requestListeners s) ∧
               timers s' = timers s ++ [t] ∧
               settled s' = settled s ∧ calls s' = calls s ++ [k]
  | Malformed now =>
      (same_pending s s' ∨ listener_called now s s') ∧
      timers s' = timers s ∧ ∃ k, calls s' = calls s ++ [k]
  end.

(** Two states that agree on the pending-request machinery. *)
Definition same_core (s s' : State) : Prop :=
  requestListeners s' = requestListeners s ∧ timers s' = timers s ∧
  settled s' = settled s ∧ calls s' = calls s.

(** The clock value a turn reads if it issues a request. A message with an
    [id] is a response or an error for a request: handling it issues none. *)
Definition clock (e : Event) : option Z :=
  match e with
  | CallRawNodeMethod now _ _ => Some now
  | GetOrCreateAppInstance now _ _ => Some now
  | NodeMessage now (Rpc m) =>
      match id m with Some _ => None | None => Some now end
  | NodeMessage now (PlainEvent _) => Some now
  | TimerFires _ => None
  | RunJob => None
  end.

(** The id of the request a turn answers, if the turn delivers a message
    with an [id]. *)
Definition answers (e : Event) : option Z :=
  match e with
  | NodeMessage _ (Rpc m) => id m
  | _ => None
  end.

(** Which effects a turn can have. *)
Definition may_cause (e : Event) (eff : Effect) : Prop :=
  match eff with
  | Quiet => True
  | Answered i => answers e = Some i
  | Expired c => e = TimerFires c
  | Issued now => clock e = Some now
  | Malformed now => clock e = Some now
  end.

(** Every closure the Provider holds belongs to a promise it has created. *)
Definition well_formed (s : State) : Prop :=
  (∀ i l, requestListeners s !! i = Some l → (l_call l < length (calls s))%nat) ∧
  (∀ t, t ∈ timers s → (t_call t < length (calls s))%nat) ∧
  (∀ c v, (c, v) ∈ settled s → (c < length (calls s))%nat).

(** No closure the Provider holds can settle the promise of call [c]. *)
Definition unreferenced (c : CallId) (s : State) : Prop :=
  (c < length (calls s))%nat ∧
  (∀ i l, requestListeners s !! i = Some l → l_call l ≠ c) ∧
  (∀ t, t ∈ timers s → t_call t ≠ c).

(** The timer of call [c], armed for request id [rid], is the only armed
    timer of that call and the only one for that id. *)
Definition armed (c : CallId) (rid : Z) (t : Timer) (s : State) : Prop :=
  t_call t = c ∧ t_requestId t = rid ∧
  filter (λ t', t_call t' = c ∨ t_requestId t' = rid) (timers s) = [t].

(** Call [c] is in flight: its listener [l] sits under its id [rid], its
    timer [t] is armed, and neither [resolve] nor [reject] has been called. *)
Definition in_flight (c : CallId) (rid : Z) (l : Listener) (t : Timer)
    (s : State) : Prop :=
  (c < length (calls s))%nat ∧
  l_call l = c ∧
  requestListeners s !! rid = Some l ∧
  (∀ i l', requestListeners s !! i = Some l' → l_call l' = c → i = rid) ∧
  armed c rid t s ∧
  settle_count c s = 0%nat.

(** Call [c] has been answered while its timer is still armed. *)
Definition answered_armed (c : CallId) (rid : Z) (t : Timer) (s : State) : Prop :=
  (c < length (calls s))%nat ∧
  requestListeners s !! rid = None ∧
  (∀ i l', requestListeners s !! i = Some l' → l_call l' ≠ c) ∧
  armed c rid t s ∧
  settle_count c s = 1%nat.

(** Call [c] is over: settled once, and out of reach. *)
Definition finished (c : CallId) (s : State) : Prop :=
  unreferenced c s ∧ settle_count c s = 1%nat.

(** The three stages of a call whose id is not reused. *)
Definition tracked (c : CallId) (rid : Z) (l : Listener) (t : Timer)
    (s : State) : Prop :=
  in_flight c rid l t s ∨ answered_armed c rid t s ∨ finished c s.

(** A turn that leaves the call [c] with request id [rid] alone: it delivers
    no message with that id, it does not fire the timer of the call, and it
    issues no request under that id. *)
Definition leaves_alone (c : CallId) (rid : Z) (e : Event) : Prop :=
  answers e ≠ Some rid ∧ e ≠ TimerFires c ∧ clock e ≠ Some rid.

(** A concrete choice of the imported values, for the examples: the enum
    members as strings, and a serializer that prints the method name and
    the id of a request, the type tag and the id of a response. *)
Definition sample_stringify_request (r : RpcRequest) : string :=
  "{method:" +:+ methodName r +:+ ",id:" +:+ pretty (request_id r) +:+ "}".

Definition sample_stringify_response (r : JsonRpcResponse) : string :=
  "{type:" +:+ type (result r) +:+ ",id:"
  +:+ match id r with Some i => pretty i | None => "none" end +:+ "}".

Definition sample_types : NodeTypes :=
  {| ErrorType_ERROR := "error";
     EventType_ERROR := "error";
     EventType_INSTALL := "install";
     EventType_INSTALL_VIRTUAL := "installVirtual";
     EventType_REJECT_INSTALL := "rejectInstall";
     EventName_INSTALL := "installEvent";
     EventName_INSTALL_VIRTUAL := "installVirtualEvent";
     EventName_REJECT_INSTALL := "rejectInstallEvent";
     RpcMethodName_GET_APP_INSTANCE_DETAILS := "getAppInstanceDetails";
     JSON_stringify_request := sample_stringify_request;
     JSON_stringify_response := sample_stringify_response |}.

End Provider.

(* ===================================================================== *)
(** ** What a turn does to the transport and to the registry *)
(* ===================================================================== *)

Module ProviderTransport.
Import Provider.

(** A turn that sends nothing: no request leaves, and no entry and no
    timer is added. *)
Definition sends_nothing (s s' : State) : Prop :=
  sent s' = sent s ∧
  (∀ i l, requestListeners s' !! i = Some l → requestListeners s !! i = Some l) ∧
  (∀ t, t ∈ timers s' → t ∈ timers s).

(** A turn that sends the request of a call [c]: the request, its entry
    and its timer are added, and nothing else. *)
Definition sends_request (now : Z) (method : string) (params : MethodParams)
    (c : CallId) (s s' : State) : Prop :=
  method ≠ "" ∧
  sent s' = sent s ++ [jsonRpcDeserialize params method now] ∧
  requestListeners s' =
    <[now := {| l_methodName := method; l_requestId := now; l_call := c |}]>
      (requestListeners s) ∧
  timers s' =
    timers s ++ [ {| t_delay := NODE_REQUEST_TIMEOUT; t_requestId := now;
                     t_request := jsonRpcDeserialize params method now;
                     t_call := c |} ].

(** What is pending and armed has been sent: every request sent has a
    method name; every pending entry sits under the id of a request that
    was sent for its method; every armed timer has the delay
    NODE_REQUEST_TIMEOUT and holds a request that was sent under the
    timer's id. *)
Definition transport_ok (s : State) : Prop :=
  (∀ r, r ∈ sent s → methodName r ≠ "") ∧
  (∀ i l, requestListeners s !! i = Some l →
          l_requestId l = i ∧
          ∃ r, r ∈ sent s ∧ request_id r = i ∧ methodName r = l_methodName l) ∧
  (∀ t, t ∈ timers s →
        t_delay t = NODE_REQUEST_TIMEOUT ∧ t_request t ∈ sent s ∧
        request_id (t_request t) = t_requestId t).



End ProviderTransport.

(* ===================================================================== *)
(** ** Theorems: instruction schedules *)
(* ===================================================================== *)

Module InstructionsFacts.
Import Instructions.

(** OP_SIGN and OP_SIGN_VALIDATE occur exactly once in every schedule, so
    [placed_before] compares their only occurrences. *)
Lemma sign_steps_occur_once (r : Role) (k : ProtocolKind) :
  length (filter (λ i, i = OP_SIGN) (schedule r k)) = 1%nat ∧
  length (filter (λ i, i = OP_SIGN_VALIDATE) (schedule r k)) = 1%nat.
Proof. destruct r, k; split; reflexivity. Qed.

(** [indexOf] returns a position at which the step stands. *)
Lemma indexOf_Some_lookup (x : Instruction) (l : list Instruction) (i : nat) :
  indexOf x l = Some i → l !! i = Some x.
Proof.
  revert i. induction l as [|y l IH]; intros i; simpl; [discriminate|].
  destruct (decide (x = y)) as [->|Hne].
  - intros [= <-]. reflexivity.
  - destruct (indexOf x l) as [j|] eqn:E; simpl; [|discriminate].
    intros [= <-]. simpl. by apply IH.
Qed.




(** The install schedules have the opposite shape: the acknowledger waits
    and signs before it validates, the initiator validates before it signs. *)
Lemma install_schedules_are_reversed :
  (IO_WAIT ∈ AckInstructions install) ∧
  placed_before OP_SIGN OP_SIGN_VALIDATE (AckInstructions install) ∧
  placed_before OP_SIGN_VALIDATE OP_SIGN (Instructions install) ∧
  ¬ placed_before OP_SIGN_VALIDATE OP_SIGN (AckInstructions install) ∧
  ¬ placed_before OP_SIGN OP_SIGN_VALIDATE (Instructions install).
Proof.
  compute_done.
Qed.

(** Claim C10: for each role the schedules of setup, update and uninstall
    are one and the same sequence, of 8 steps for the initiator and of 7 for
    the acknowledger; install is the only kind whose schedule differs; no
    schedule contains ALL. *)
Theorem setup_update_uninstall_share_one_schedule :
  (∀ r, schedule r setup = schedule r update ∧
        schedule r uninstall = schedule r update) ∧
  length (schedule Initiator update) = 8%nat ∧
  length (schedule Acknowledger update) = 7%nat ∧
  (∀ r k, schedule r k ≠ schedule r update ↔ k = install) ∧
  (∀ r k, ALL ∉ schedule r k).
Proof.
  split; [intros []; split; reflexivity|].
  split; [reflexivity|]. split; [reflexivity|].
  split.
  - intros r k; split.
    + intros Hne. destruct r, k; try reflexivity; exfalso; by apply Hne.
    + intros ->. destruct r; discriminate.
  - intros r k. destruct r, k; compute_done.
Qed.

End InstructionsFacts.

(* ===================================================================== *)
(** ** Theorems: the Provider, one turn *)
(* ===================================================================== *)

Module ProviderFacts.
Import Provider.

Section OneTurn.
Context (T : NodeTypes).

Lemma elem_of_ErrorType_values (tag : string) :
  tag ∈ ErrorType_values T ↔ tag = ErrorType_ERROR T.
Proof. unfold ErrorType_values. apply list_elem_of_singleton. Qed.

(** A listener calls [resolve] or [reject] of its own promise, once, and
    touches nothing but the log and the ready continuations. *)
Lemma listener_settles (l : Listener) (response : JsonRpcResponse) (s : State) :
  ∃ v, listener T l response s = settle (l_call l) v s.
Proof. unfold listener. repeat case_decide; eauto. Qed.

Lemma settle_fields (c : CallId) (v : Settlement) (s : State) :
  settled (settle c v s) = settled s ++ [(c, v)] ∧
  requestListeners (settle c v s) = requestListeners s ∧
  timers (settle c v s) = timers s ∧
  calls (settle c v s) = calls s ∧
  appInstances (settle c v s) = appInstances s ∧
  emitted (settle c v s) = emitted s ∧
  sent (settle c v s) = sent s.
Proof. unfold settle. repeat case_match; done. Qed.

(** The first invocation hands the value to the code awaiting the promise;
    a later one is only logged. *)
Lemma settle_jobs (c : CallId) (v : Settlement) (s : State) (k : Cont) :
  calls s !! c = Some k →
  jobs (settle c v s) =
    if decide (settle_count c s = 0%nat)
    then jobs s ++ [(k, Settlement_value v)] else jobs s.
Proof. intros Hk. unfold settle. rewrite Hk. by case_decide. Qed.

(** A message with an [id] and without the error tag is handled as the
    response to the request of that id. *)
Lemma onNodeMessage_response (now : Z) (s : State) (response : JsonRpcResponse)
    (i : Z) :
  id response = Some i →
  type (result response) ≠ ErrorType_ERROR T →
  onNodeMessage T now (Rpc response) s =
    Ok (handleNodeMethodResponse T response i s).
Proof.
  intros Hid Hty. unfold onNodeMessage. simpl.
  rewrite decide_False by (by rewrite elem_of_ErrorType_values).
  by rewrite Hid.
Qed.

(** Claim C3: a response whose type tag is neither the error tag nor the
    method the call asked for makes the listener of that call reject with
    an unexpected_message_type error; the entry is removed and no [resolve]
    is invoked. *)
Theorem mismatched_response_rejects (now : Z) (s : State) (l : Listener)
    (response : JsonRpcResponse) (i : Z) :
  id response = Some i →
  requestListeners s !! i = Some l →
  type (result response) ≠ ErrorType_ERROR T →
  type (result response) ≠ l_methodName l →
  ∃ s', onNodeMessage T now (Rpc response) s = Ok s' ∧
        settled s' =
          settled s ++
          [(l_call l,
            Reject (ThrownResponse
              (jsonRpcSerializeAsResponse
                 {| type := EventType_ERROR T;
                    body := ErrorData "unexpected_message_type"
                              (Some ("Unexpected response type. Expected "
                                     +:+ l_methodName l +:+ ", got "
                                     +:+ type (result response))) |}
                 (l_requestId l))))] ∧
        requestListeners s' = delete i (requestListeners s) ∧
        (∀ c p, (c, Resolve p) ∈ settled s' → (c, Resolve p) ∈ settled s).
Proof.
  intros Hid Hl Herr Hty. unfold onNodeMessage. simpl.
  rewrite decide_False by (by rewrite elem_of_ErrorType_values).
  rewrite Hid. eexists; split; [reflexivity|].
  unfold handleNodeMethodResponse. rewrite Hl. unfold listener.
  rewrite decide_False by done. rewrite decide_True by done.
  simpl. destruct (settle_fields (l_call l)
    (Reject (ThrownResponse (jsonRpcSerializeAsResponse
       {| type := EventType_ERROR T;
          body := ErrorData "unexpected_message_type"
                    (Some ("Unexpected response type. Expected "
                           +:+ l_methodName l +:+ ", got "
                           +:+ type (result response))) |}
       (l_requestId l)))) s) as (Hs & Hr & _).
  rewrite Hs, Hr. split; [done|]. split; [done|].
  intros c p Hin. apply elem_of_app in Hin as [Hin|Hin]; [done|].
  apply list_elem_of_singleton in Hin. discriminate.
Qed.

(** Claim C4: a response with an id under which nothing is pending settles
    nothing; an error event named orphaned_response is published on the
    ERROR topic, the handler returns normally and the rest of the Provider
    is as before. *)
Theorem orphaned_response_publishes_error (now : Z) (s : State)
    (response : JsonRpcResponse) (i : Z) :
  id response = Some i →
  requestListeners s !! i = None →
  type (result response) ≠ ErrorType_ERROR T →
  ∃ s', onNodeMessage T now (Rpc response) s = Ok s' ∧
        emitted s' =
          emitted s ++
          [(EventType_ERROR T,
            {| type := EventType_ERROR T;
               body := ErrorData "orphaned_response"
                         (Some ("Response has no corresponding inflight request: "
                                +:+ JSON_stringify_response T response)) |})] ∧
        settled s' = settled s ∧ jobs s' = jobs s ∧
        requestListeners s' = requestListeners s ∧ timers s' = timers s ∧
        calls s' = calls s ∧ appInstances s' = appInstances s ∧
        sent s' = sent s.
Proof.
  intros Hid Hl Herr. unfold onNodeMessage. simpl.
  rewrite decide_False by (by rewrite elem_of_ErrorType_values).
  rewrite Hid. eexists; split; [reflexivity|].
  unfold handleNodeMethodResponse. rewrite Hl. done.
Qed.

(** Property X21: a message with a jsonrpc envelope and the error tag
    is republished, payload unchanged, under the topic named by its tag,
    whether or not a call awaits it. If its id is not 0 and a request is
    pending under that id, that call's [reject] is invoked with the error
    and the entry is removed; if it has no id, the id 0, or an id without
    pending request, nothing is settled and the table is unchanged. *)
Theorem error_message_fails_call_and_is_republished (now : Z) (s : State)
    (m : JsonRpcResponse) :
  type (result m) = ErrorType_ERROR T →
  ∃ s', onNodeMessage T now (Rpc m) s = Ok s' ∧
        emitted s' = emitted s ++ [(ErrorType_ERROR T, result m)] ∧
        (∀ i l, id m = Some i → i ≠ 0 → requestListeners s !! i = Some l →
           settled s' =
             settled s ++
             [(l_call l,
               Reject (ThrownResponse
                 (jsonRpcSerializeAsResponse
                    {| type := EventType_ERROR T; body := body (result m) |}
                    (l_requestId l))))] ∧
           requestListeners s' = delete i (requestListeners s)) ∧
        ((∀ i, id m = Some i → i = 0 ∨ requestListeners s !! i = None) →
           settled s' = settled s ∧ requestListeners s' = requestListeners s).
Proof.
  intros Hty. unfold onNodeMessage. simpl.
  rewrite decide_True by (by rewrite elem_of_ErrorType_values).
  eexists; split; [reflexivity|]. unfold handleNodeError.
  rewrite Hty. split; [|split].
  - simpl. repeat case_match; try done.
    unfold listener. rewrite decide_True by done. simpl.
    by destruct (settle_fields (l_call l)
      (Reject (ThrownResponse (jsonRpcSerializeAsResponse
         {| type := EventType_ERROR T; body := body (result m) |}
         (l_requestId l)))) s) as (_ & _ & _ & _ & _ & -> & _).
  - intros i l Hid Hi Hl. rewrite Hid. rewrite decide_True by done.
    rewrite Hl. unfold listener. rewrite decide_True by done. simpl.
    by destruct (settle_fields (l_call l)
      (Reject (ThrownResponse (jsonRpcSerializeAsResponse
         {| type := EventType_ERROR T; body := body (result m) |}
         (l_requestId l)))) s) as (-> & -> & _).
  - intros Hnone. destruct (id m) as [i|]; [|done].
    destruct (Hnone i eq_refl) as [->|Hl].
    + by rewrite decide_False by (intros H; by apply H).
    + case_decide; [|done]. by rewrite Hl.
Qed.

(** [getOrCreateAppInstance] leaves every other id of the registry alone,
    and the id it is asked for is not given a second record: the registry
    afterwards is the registry before, with at most that one entry added. *)
Lemma getOrCreateAppInstance_registry (now : Z) (appInstanceId : string)
    (hint : option AppInstanceInfo) (k : Cont) (s : State) :
  let s' := getOrCreateAppInstance T now appInstanceId hint k s in
  appInstances s' = appInstances s ∨
  (appInstances s !! appInstanceId = None ∧
   ∃ newInfo, hint = Some newInfo ∧
     appInstances s' = <[appInstanceId := new_AppInstance newInfo]> (appInstances s)).
Proof.
  simpl. unfold getOrCreateAppInstance.
  destruct (appInstances s !! appInstanceId) as [a|] eqn:Ha; [by left|].
  destruct (decide (appInstanceId ∈ Object_prototype_names)); [by left|].
  destruct hint as [newInfo|]; [right; eauto|left].
  unfold callRawNodeMethod, handleNodeError. simpl.
  repeat case_match; simpl; try done;
    destruct (listener_settles l
      {| result := {| type := EventType_ERROR T;
                      body := ErrorData "unexpected_event_type" None |};
         id := Some now |}
      (set_calls (λ l0, l0 ++ [KFetched appInstanceId k]) s)) as [v ->];
    by destruct (settle_fields (l_call l) v
      (set_calls (λ l0, l0 ++ [KFetched appInstanceId k]) s))
      as (_ & _ & _ & _ & -> & _).
Qed.

(** Claim C6: called with an id the registry already holds, whatever the
    hint, [getOrCreateAppInstance] returns the record held, changes neither
    that record nor any other entry of the registry, and asks the node for
    nothing. The registry is a map: it has one record per id. *)
Theorem getOrCreateAppInstance_cached (now : Z) (appInstanceId : string)
    (a : AppInstance) (hint : option AppInstanceInfo) (k : Cont) (s : State) :
  appInstances s !! appInstanceId = Some a →
  let s' := getOrCreateAppInstance T now appInstanceId hint k s in
  s' = resume k (VAppInstance a) s ∧
  s' = getOrCreateAppInstance T now appInstanceId None k s ∧
  jobs s' = jobs s ++ [(k, VAppInstance a)] ∧
  appInstances s' = appInstances s ∧
  appInstances s' !! appInstanceId = Some a ∧
  size (appInstances s') = size (appInstances s) ∧
  sent s' = sent s ∧ calls s' = calls s ∧
  requestListeners s' = requestListeners s.
Proof.
  intros Ha. simpl. unfold getOrCreateAppInstance. rewrite Ha. done.
Qed.

(** The spec's test of C6: two calls for one id, the second with another
    hint. Both return the record the first call built. *)
Lemma getOrCreateAppInstance_twice (now now' : Z) (appInstanceId : string)
    (first second : AppInstanceInfo) (k k' : Cont) (s : State) :
  appInstances s !! appInstanceId = None →
  appInstanceId ∉ Object_prototype_names →
  let s' :=
    getOrCreateAppInstance T now' appInstanceId (Some second) k'
      (getOrCreateAppInstance T now appInstanceId (Some first) k s) in
  jobs s' = jobs s ++ [(k, VAppInstance (new_AppInstance first));
                       (k', VAppInstance (new_AppInstance first))] ∧
  appInstances s' = <[appInstanceId := new_AppInstance first]> (appInstances s).
Proof.
  intros Ha Hown. simpl. unfold getOrCreateAppInstance. rewrite Ha.
  rewrite decide_False by done. simpl.
  rewrite lookup_insert_eq. simpl. by rewrite <- app_assoc.
Qed.

(** Claim C7, amended: handling a REJECT_INSTALL event that carries the
    details of an app instance, under an identityHash that is not the name
    of a member the registry object inherits, issues no request; the
    registry afterwards holds, under the identityHash of the details, the
    record it held before or, if it held none, a record built from the
    details, which carries that identityHash; the handler then publishes a
    REJECT_INSTALL event whose data.appInstance is that record. *)
Theorem reject_install_event_registers_and_republishes (now : Z)
    (nodeEvent : Payload) (supplied : AppInstanceInfo) (s : State) :
  body nodeEvent = RejectInstallEventData supplied →
  identityHash supplied ∉ Object_prototype_names →
  let h := identityHash supplied in
  let a := default (new_AppInstance supplied) (appInstances s !! h) in
  ∃ s', handleRejectInstallEvent T now nodeEvent s = Ok s' ∧
        appInstances s' = <[h := a]> (appInstances s) ∧
        jobs s' = jobs s ++ [(KEmit (EventType_REJECT_INSTALL T), VAppInstance a)] ∧
        (∀ s2, runJob (KEmit (EventType_REJECT_INSTALL T), VAppInstance a) s2 =
               emit (EventType_REJECT_INSTALL T)
                 {| type := EventType_REJECT_INSTALL T;
                    body := AppInstanceData a |} s2) ∧
        sent s' = sent s ∧ calls s' = calls s ∧
        requestListeners s' = requestListeners s ∧ timers s' = timers s ∧
        (appInstances s !! h = None →
           a = new_AppInstance supplied ∧ AppInstance_identityHash a = h).
Proof.
  intros Hbody Hown. simpl. unfold handleRejectInstallEvent. rewrite Hbody.
  eexists; split; [reflexivity|]. unfold getOrCreateAppInstance.
  destruct (appInstances s !! identityHash supplied) as [a|] eqn:Ha; simpl.
  - by rewrite insert_id.
  - by rewrite decide_False by done.
Qed.

(** A REJECT_INSTALL event reaches [handleRejectInstallEvent] whether it
    comes as a plain event or as a notification with a jsonrpc envelope. *)
Lemma onNodeMessage_reject_install (now : Z) (message : Message) (s : State) :
  message_type message = EventName_REJECT_INSTALL T →
  EventName_REJECT_INSTALL T ≠ ErrorType_ERROR T →
  answers (NodeMessage now message) = None →
  onNodeMessage T now message s =
    handleRejectInstallEvent T now
      (match message with Rpc m => result m | PlainEvent e => e end) s.
Proof.
  intros Hty Hne Hid. unfold onNodeMessage.
  rewrite decide_False by (rewrite elem_of_ErrorType_values; congruence).
  destruct message as [m|e]; simpl in *.
  - rewrite Hid. unfold handleNodeEvent. by rewrite decide_True.
  - unfold handleNodeEvent. by rewrite decide_True.
Qed.

(** From the message to the published event: with no other continuation
    waiting, the turn after the message publishes the REJECT_INSTALL event
    with the record the registry holds, and no request has been sent. *)
Lemma reject_install_message_is_republished (now : Z) (message : Message)
    (supplied : AppInstanceInfo) (s : State) :
  message_type message = EventName_REJECT_INSTALL T →
  EventName_REJECT_INSTALL T ≠ ErrorType_ERROR T →
  answers (NodeMessage now message) = None →
  body (match message with Rpc m => result m | PlainEvent e => e end)
    = RejectInstallEventData supplied →
  identityHash supplied ∉ Object_prototype_names →
  jobs s = [] →
  let a := default (new_AppInstance supplied)
             (appInstances s !! identityHash supplied) in
  ∃ s', run T [NodeMessage now message; RunJob] s = Ok s' ∧
        emitted s' =
          emitted s ++
          [(EventType_REJECT_INSTALL T,
            {| type := EventType_REJECT_INSTALL T; body := AppInstanceData a |})] ∧
        appInstances s' !! identityHash supplied = Some a ∧
        sent s' = sent s ∧ calls s' = calls s ∧ jobs s' = [].
Proof.
  intros Hty Hne Hid Hbody Hown Hjobs. simpl.
  rewrite (onNodeMessage_reject_install now message s Hty Hne Hid).
  unfold handleRejectInstallEvent. rewrite Hbody.
  eexists. split; [reflexivity|].
  unfold getOrCreateAppInstance, runNextJob.
  destruct (appInstances s !! identityHash supplied) as [a|] eqn:Ha;
    [|rewrite decide_False by done];
    simpl; rewrite Hjobs; simpl; rewrite ?Ha, ?lookup_insert_eq; done.
Qed.

(** The timer callback, when the entry of its request is still pending:
    [reject] is called with a request_timeout error whose message carries
    the serialized request, and the entry is removed. *)
Lemma onTimeout_pending (t : Timer) (s : State) :
  is_Some (requestListeners s !! t_requestId t) →
  settled (onTimeout T t s) =
    settled s ++
    [(t_call t,
      Reject (ThrownPayload
        {| type := EventType_ERROR T;
           body := ErrorData "request_timeout"
                     (Some ("Request timed out: "
                            +:+ JSON_stringify_request T (t_request t))) |}))] ∧
  requestListeners (onTimeout T t s) = delete (t_requestId t) (requestListeners s).
Proof.
  intros [l Hl]. unfold onTimeout. rewrite Hl. simpl.
  by destruct (settle_fields (t_call t)
    (Reject (ThrownPayload
       {| type := EventType_ERROR T;
          body := ErrorData "request_timeout"
                    (Some ("Request timed out: "
                           +:+ JSON_stringify_request T (t_request t))) |})) s)
    as (-> & -> & _).
Qed.

(** The timer callback, when the entry is gone: nothing happens. *)
Lemma onTimeout_answered (t : Timer) (s : State) :
  requestListeners s !! t_requestId t = None → onTimeout T t s = s.
Proof. intros Hl. unfold onTimeout. by rewrite Hl. Qed.

(** A call with a resolvable method name registers its listener, arms a
    timer of 30000 ms and sends the request. *)
Lemma callRawNodeMethod_issues (now : Z) (method : string)
    (params : MethodParams) (k : Cont) (s : State) :
  method ≠ "" →
  let c := length (calls s) in
  let request := jsonRpcDeserialize params method now in
  let s' := callRawNodeMethod T now method params k s in
  requestListeners s' =
    <[now := {| l_methodName := method; l_requestId := now; l_call := c |}]>
      (requestListeners s) ∧
  timers s' =
    timers s ++ [ {| t_delay := 30000; t_requestId := now;
                     t_request := request; t_call := c |} ] ∧
  sent s' = sent s ++ [request] ∧
  calls s' = calls s ++ [k] ∧
  settled s' = settled s ∧ jobs s' = jobs s ∧ emitted s' = emitted s ∧
  appInstances s' = appInstances s.
Proof.
  intros Hm. simpl. unfold callRawNodeMethod, falsy. simpl.
  by rewrite bool_decide_eq_false_2.
Qed.

(** A call whose method name cannot be resolved sends nothing, registers
    no listener and arms no timer; it publishes an error event. *)
Lemma callRawNodeMethod_malformed (now : Z) (params : MethodParams) (k : Cont)
    (s : State) :
  let s' := callRawNodeMethod T now "" params k s in
  s' = handleNodeError T
         {| result := {| type := EventType_ERROR T;
                         body := ErrorData "unexpected_event_type" None |};
            id := Some now |}
         (set_calls (λ l, l ++ [k]) s) ∧
  sent s' = sent s ∧ timers s' = timers s ∧ calls s' = calls s ++ [k] ∧
  (requestListeners s !! now = None →
     requestListeners s' = requestListeners s ∧ settled s' = settled s ∧
     jobs s' = jobs s ∧
     emitted s' =
       emitted s ++
       [(EventType_ERROR T,
         {| type := EventType_ERROR T;
            body := ErrorData "unexpected_event_type" None |})]).
Proof.
  simpl. unfold callRawNodeMethod. simpl. split; [done|].
  unfold handleNodeError. simpl.
  destruct (decide (now ≠ 0)) as [Hnow|Hnow];
    destruct (requestListeners s !! now) as [l|] eqn:Hl; simpl; try done.
  destruct (listener_settles l
    {| result := {| type := EventType_ERROR T;
                    body := ErrorData "unexpected_event_type" None |};
       id := Some now |} (set_calls (λ l0, l0 ++ [k]) s)) as [v ->].
  by destruct (settle_fields (l_call l) v (set_calls (λ l0, l0 ++ [k]) s))
    as (_ & _ & -> & -> & _ & _ & ->).
Qed.

End OneTurn.

(* ===================================================================== *)
(** ** Theorems: the Provider, over runs *)
(* ===================================================================== *)

Section Runs.
Context (T : NodeTypes).

(** *** Every turn has one of the five effects *)

Lemma same_core_quiet (s s' : State) : same_core s s' → effect Quiet s s'.
Proof. intros (? & ? & ? & ?). by repeat split. Qed.

Lemma effect_same_core_r (eff : Effect) (s s' s'' : State) :
  effect eff s s' → same_core s' s'' → effect eff s s''.
Proof.
  intros H (Hl & Ht & Hs & Hc).
  destruct eff; unfold effect, same_pending, listener_called in *;
    rewrite Hl, Ht, Hs, Hc; exact H.
Qed.

Lemma effect_same_core_l (eff : Effect) (s0 s s' : State) :
  same_core s0 s → effect eff s s' → effect eff s0 s'.
Proof.
  intros (Hl & Ht & Hs & Hc) H.
  destruct eff; unfold effect, same_pending, listener_called in *;
    rewrite <- Hl, <- Ht, <- Hs, <- Hc; exact H.
Qed.

Lemma listener_called_intro (l : Listener) (response : JsonRpcResponse)
    (i : Z) (s : State) :
  requestListeners s !! i = Some l →
  listener_called i s
    (set_requestListeners (delete i) (listener T l response s)) ∧
  timers (set_requestListeners (delete i) (listener T l response s)) = timers s ∧
  calls (set_requestListeners (delete i) (listener T l response s)) = calls s.
Proof.
  intros Hl. destruct (listener_settles T l response s) as [v ->].
  destruct (settle_fields (l_call l) v s) as (Hs & Hr & Ht & Hc & _).
  simpl. rewrite Ht, Hc. split; [|done].
  exists l, v. simpl. by rewrite Hs, Hr.
Qed.

Lemma handleNodeError_effect (error : JsonRpcResponse) (s : State) :
  effect Quiet s (handleNodeError T error s) ∨
  ∃ i, id error = Some i ∧ i ≠ 0 ∧
       effect (Answered i) s (handleNodeError T error s).
Proof.
  unfold handleNodeError.
  destruct (id error) as [i|]; [|left; by apply same_core_quiet].
  destruct (decide (i ≠ 0)) as [Hi|Hi]; [|left; by apply same_core_quiet].
  destruct (requestListeners s !! i) as [l|] eqn:Hl;
    [|left; by apply same_core_quiet].
  right. exists i. split; [done|]. split; [done|].
  destruct (listener_called_intro l error i s Hl) as (Hcall & Ht & Hc).
  eapply effect_same_core_r; [|by instantiate (1 :=
    set_requestListeners (delete i) (listener T l error s))].
  by repeat split.
Qed.

Lemma handleNodeMethodResponse_effect (response : JsonRpcResponse) (i : Z)
    (s : State) :
  effect Quiet s (handleNodeMethodResponse T response i s) ∨
  effect (Answered i) s (handleNodeMethodResponse T response i s).
Proof.
  unfold handleNodeMethodResponse.
  destruct (requestListeners s !! i) as [l|] eqn:Hl;
    [right|left; by apply same_core_quiet].
  destruct (listener_called_intro l response i s Hl) as (Hcall & Ht & Hc).
  by repeat split.
Qed.

Lemma callRawNodeMethod_effect (now : Z) (method : string)
    (params : MethodParams) (k : Cont) (s : State) :
  effect (Issued now) s (callRawNodeMethod T now method params k s) ∨
  effect (Malformed now) s (callRawNodeMethod T now method params k s).
Proof.
  destruct (decide (method = "")) as [->|Hm].
  - right. destruct (callRawNodeMethod_malformed T now params k s) as (-> & _).
    destruct (handleNodeError_effect
      {| result := {| type := EventType_ERROR T;
                      body := ErrorData "unexpected_event_type" None |};
         id := Some now |} (set_calls (λ l, l ++ [k]) s))
      as [(Hp & Ht & Hc)|(i & [= <-] & Hi & (Hcall & Ht & Hc))].
    + split; [by left|]. split; [done|]. by exists k.
    + split; [by right|]. split; [done|]. by exists k.
  - left. destruct (callRawNodeMethod_issues T now method params k s Hm)
      as (Hl & Ht & _ & Hc & Hs & _).
    exists {| l_methodName := method; l_requestId := now;
              l_call := length (calls s) |},
           {| t_delay := 30000; t_requestId := now;
              t_request := jsonRpcDeserialize params method now;
              t_call := length (calls s) |}, k.
    by repeat split.
Qed.

Lemma getOrCreateAppInstance_effect (now : Z) (appInstanceId : string)
    (hint : option AppInstanceInfo) (k : Cont) (s : State) :
  let s' := getOrCreateAppInstance T now appInstanceId hint k s in
  effect Quiet s s' ∨ effect (Issued now) s s' ∨ effect (Malformed now) s s'.
Proof.
  simpl. unfold getOrCreateAppInstance.
  destruct (appInstances s !! appInstanceId);
    [left; by apply same_core_quiet|].
  case_decide; [left; by apply same_core_quiet|].
  destruct hint; [left; by apply same_core_quiet|right].
  apply callRawNodeMethod_effect.
Qed.

Lemma runJob_effect (j : Cont * Value) (s : State) : effect Quiet s (runJob j s).
Proof.
  destruct j as [[| |] []]; try (apply same_core_quiet; by repeat split).
  unfold runJob. destruct (body p); apply same_core_quiet; by repeat split.
Qed.

Lemma fireTimer_effect (c : CallId) (s : State) :
  (list_find (λ t, t_call t = c) (timers s) = None ∧ fireTimer T c s = s) ∨
  effect (Expired c) s (fireTimer T c s).
Proof.
  unfold fireTimer.
  destruct (list_find (λ t, t_call t = c) (timers s)) as [[j t]|] eqn:Hfind;
    [right|by left].
  apply list_find_Some in Hfind as (Hj & Hc & Hfirst).
  exists j, t. split; [done|]. split; [done|].
  split; [intros j' t' Hj' Hlt; by eapply Hfirst|].
  unfold onTimeout. simpl.
  destruct (requestListeners s !! t_requestId t) as [l|] eqn:Hl.
  - match goal with |- context [settle ?c0 ?v ?s0] =>
      destruct (settle_fields c0 v s0) as (Hs & Hr & Ht & Hcs & _) end.
    simpl. rewrite Ht, Hcs. split; [done|]. split; [done|].
    right. eexists l, _. simpl. rewrite Hs, Hr, Hc. done.
  - simpl. split; [done|]. split; [done|]. by left.
Qed.

(** *** Lists: removing one element under a filter *)

Lemma filter_delete_other {A} (P : A → Prop) `{!∀ x, Decision (P x)}
    (l : list A) (j : nat) (x : A) :
  l !! j = Some x → ¬ P x → filter P (delete j l) = filter P l.
Proof.
  intros Hj Hx. rewrite delete_take_drop.
  rewrite <- (take_drop_middle l j x Hj) at 3.
  rewrite !filter_app, filter_cons_False by done. done.
Qed.

Lemma filter_delete_only {A} (P : A → Prop) `{!∀ x, Decision (P x)}
    (l : list A) (j : nat) (x y : A) :
  l !! j = Some x → P x → filter P l = [y] →
  x = y ∧ filter P (delete j l) = [].
Proof.
  intros Hj Hx. rewrite delete_take_drop.
  rewrite <- (take_drop_middle l j x Hj) at 1.
  rewrite !filter_app, filter_cons_True by done.
  destruct (filter P (take j l)) as [|a [|b l']]; simpl; intros Heq;
    simplify_eq. done.
Qed.

(** *** Counting settlements *)

Lemma settle_count_same (c : CallId) (s s' : State) :
  settled s' = settled s → settle_count c s' = settle_count c s.
Proof. unfold settle_count. by intros ->. Qed.

Lemma settle_count_snoc (c c' : CallId) (v : Settlement) (s s' : State) :
  settled s' = settled s ++ [(c', v)] →
  settle_count c s' =
    (settle_count c s + if decide (c' = c) then 1 else 0)%nat.
Proof.
  unfold settle_count. intros ->.
  rewrite filter_app, length_app. f_equal.
  rewrite filter_cons. simpl. by case_decide.
Qed.

Lemma settle_count_absent (c : CallId) (s : State) :
  (∀ v, (c, v) ∉ settled s) → settle_count c s = 0%nat.
Proof.
  unfold settle_count. intros Hc.
  destruct (filter (λ e, e.1 = c) (settled s)) as [|[c' v] l] eqn:Hf; [done|].
  assert ((c', v) ∈ filter (λ e, e.1 = c) (settled s)) as Hin
    by (rewrite Hf; left).
  apply list_elem_of_filter in Hin as [Heq Hin]. simpl in Heq. subst c'.
  by destruct (Hc v).
Qed.

(** *** The closures in the tables belong to promises already created *)

Lemma well_formed_initial : well_formed initial.
Proof.
  split; [|split]; simpl.
  - intros i l H. by rewrite lookup_empty in H.
  - intros t H. by apply not_elem_of_nil in H.
  - intros c v H. by apply not_elem_of_nil in H.
Qed.

Lemma well_formed_effect (eff : Effect) (s s' : State) :
  well_formed s → effect eff s s' → well_formed s'.
Proof.
  intros (Hl & Ht & Hs) Heff.
  assert (∀ i, listener_called i s s' → calls s' = calls s →
            (∀ i l, requestListeners s' !! i = Some l →
                    (l_call l < length (calls s'))%nat) ∧
            (∀ c v, (c, v) ∈ settled s' → (c < length (calls s'))%nat))
    as Hcalled.
  { intros i (l & v & Hi & Hl' & Hs') Hc. rewrite Hl', Hs', Hc. split.
    - intros i' l' H. apply lookup_delete_Some in H as [_ H]. eauto.
    - intros c v' H. apply elem_of_app in H as [H|H]; [eauto|].
      apply list_elem_of_singleton in H as [= -> ->]. eauto. }
  destruct eff as [|i|c|now|now]; simpl in Heff.
  - destruct Heff as ((Hl' & Hs') & Ht' & Hc').
    unfold well_formed. by rewrite Hl', Hs', Ht', Hc'.
  - destruct Heff as (Hcall & Ht' & Hc').
    destruct (Hcalled i Hcall Hc') as [? ?].
    split; [done|]. split; [|done]. by rewrite Ht', Hc'.
  - destruct Heff as (j & t & Hj & Htc & _ & Ht' & Hc' & Hcase).
    assert (∀ t0, t0 ∈ timers s' → (t_call t0 < length (calls s'))%nat) as Ht''.
    { intros t0 H. rewrite Ht' in H. apply list_elem_of_delete_inv in H.
      rewrite Hc'. eauto. }
    destruct Hcase as [(_ & Hl' & Hs')|(l & v & Hi & Hl' & Hs')].
    + unfold well_formed. rewrite Hl', Hs'. rewrite Hc' in *. done.
    + unfold well_formed. rewrite Hl', Hs', Hc'. split; [|split].
      * intros i' l' H. apply lookup_delete_Some in H as [_ H]. eauto.
      * by rewrite <- Hc'.
      * intros c' v' H. apply elem_of_app in H as [H|H]; [eauto|].
        apply list_elem_of_singleton in H as [= -> ->]. rewrite <- Htc.
        apply Ht. by eapply list_elem_of_lookup_2.
  - destruct Heff as (m & t & k & Hmc & _ & Htc & _ & Hl' & Ht' & Hs' & Hc').
    unfold well_formed. rewrite Hl', Ht', Hs', Hc', length_app. simpl.
    split; [|split].
    + intros i l H. apply lookup_insert_Some in H as [[_ <-]|[_ H]].
      * rewrite Hmc. lia.
      * apply Hl in H. lia.
    + intros t0 H. apply elem_of_app in H as [H|H].
      * apply Ht in H. lia.
      * apply list_elem_of_singleton in H as ->. rewrite Htc. lia.
    + intros c v H. apply Hs in H. lia.
  - destruct Heff as (Hcase & Ht' & k & Hc').
    assert (length (calls s') = S (length (calls s))) as Hlen
      by (rewrite Hc', length_app; simpl; lia).
    unfold well_formed. rewrite Ht', Hlen.
    destruct Hcase as [(Hl' & Hs')|(l & v & Hi & Hl' & Hs')];
      rewrite Hl', Hs'; (split; [|split]).
    + intros i l H. apply Hl in H. lia.
    + intros t H. apply Ht in H. lia.
    + intros c v H. apply Hs in H. lia.
    + intros i l0 H. apply lookup_delete_Some in H as [_ H]. apply Hl in H. lia.
    + intros t H. apply Ht in H. lia.
    + intros c v0 H. apply elem_of_app in H as [H|H]; [apply Hs in H; lia|].
      apply list_elem_of_singleton in H as [= -> ->]. apply Hl in Hi. lia.
Qed.

(** *** A promise out of reach stays as it is *)

Lemma listener_called_other (c : CallId) (i : Z) (s s' : State) :
  (∀ i l, requestListeners s !! i = Some l → l_call l ≠ c) →
  listener_called i s s' →
  (∀ i l, requestListeners s' !! i = Some l → l_call l ≠ c) ∧
  settle_count c s' = settle_count c s.
Proof.
  intros Hl (l & v & Hi & Hl' & Hs'). split.
  - intros i' l' H. rewrite Hl' in H.
    apply lookup_delete_Some in H as [_ H]. eauto.
  - rewrite (settle_count_snoc c _ _ _ _ Hs').
    rewrite decide_False by eauto. lia.
Qed.

Lemma unreferenced_effect (eff : Effect) (c : CallId) (s s' : State) :
  unreferenced c s → effect eff s s' →
  unreferenced c s' ∧ settle_count c s' = settle_count c s.
Proof.
  intros (Hc & Hl & Ht) Heff. unfold unreferenced.
  destruct eff as [|i|c'|now|now]; simpl in Heff.
  - destruct Heff as ((Hl' & Hs') & Ht' & Hc').
    rewrite Hl', Ht', Hc'. split; [done|]. by apply settle_count_same.
  - destruct Heff as (Hcall & Ht' & Hc').
    destruct (listener_called_other c i s s' Hl Hcall) as [? ?].
    rewrite Ht', Hc'. done.
  - destruct Heff as (j & t & Hj & Htc & _ & Ht' & Hc' & Hcase).
    assert (c' ≠ c) as Hne
      by (rewrite <- Htc; apply Ht; by eapply list_elem_of_lookup_2).
    assert (∀ t0, t0 ∈ timers s' → t_call t0 ≠ c) as Ht''.
    { intros t0 H. rewrite Ht' in H. apply list_elem_of_delete_inv in H. eauto. }
    rewrite Hc'.
    destruct Hcase as [(_ & Hl' & Hs')|(l & v & Hi & Hl' & Hs')].
    + rewrite Hl'. split; [done|]. by apply settle_count_same.
    + rewrite Hl'. split.
      * split; [done|]. split; [|done].
        intros i' l' H. apply lookup_delete_Some in H as [_ H]. eauto.
      * rewrite (settle_count_snoc c _ _ _ _ Hs').
        rewrite decide_False by done. lia.
  - destruct Heff as (m & t & k & Hmc & _ & Htc & _ & Hl' & Ht' & Hs' & Hc').
    rewrite Hl', Ht', Hc', length_app. simpl. split.
    + split; [lia|]. split.
      * intros i l H. apply lookup_insert_Some in H as [[_ <-]|[_ H]]; [|eauto].
        rewrite Hmc. lia.
      * intros t0 H. apply elem_of_app in H as [H|H]; [eauto|].
        apply list_elem_of_singleton in H as ->. rewrite Htc. lia.
    + by apply settle_count_same.
  - destruct Heff as (Hcase & Ht' & k & Hc').
    rewrite Ht', Hc', length_app. simpl.
    destruct Hcase as [(Hl' & Hs')|Hcall].
    + rewrite Hl'. split; [|by apply settle_count_same].
      split; [lia|done].
    + destruct (listener_called_other c now s s' Hl Hcall) as [? ?].
      split; [|done]. split; [lia|done].
Qed.

(** *** A call in flight *)

Lemma armed_other_timer (c : CallId) (rid : Z) (t t' : Timer) (j : nat)
    (s : State) :
  armed c rid t s → timers s !! j = Some t' → t_call t' ≠ c →
  t_requestId t' ≠ rid.
Proof.
  intros (Htc & Htr & Hf) Hj Hne Hrid.
  assert (t' ∈ filter (λ t0, t_call t0 = c ∨ t_requestId t0 = rid) (timers s))
    as Hin.
  { apply list_elem_of_filter. split; [by right|]. by eapply list_elem_of_lookup_2. }
  rewrite Hf in Hin. apply list_elem_of_singleton in Hin as ->. done.
Qed.

Lemma armed_delete_other (c : CallId) (rid : Z) (t t' : Timer) (j : nat)
    (s s' : State) :
  armed c rid t s → timers s !! j = Some t' → t_call t' ≠ c →
  timers s' = delete j (timers s) → armed c rid t s'.
Proof.
  intros Harmed Hj Hne Ht'.
  pose proof (armed_other_timer c rid t t' j s Harmed Hj Hne) as Hrid.
  destruct Harmed as (Htc & Htr & Hf). split; [done|]. split; [done|].
  rewrite Ht', (filter_delete_other _ _ j t'); [done|done|].
  by intros [?|?].
Qed.

Lemma armed_fires (c : CallId) (rid : Z) (t t' : Timer) (j : nat)
    (s s' : State) :
  armed c rid t s → timers s !! j = Some t' → t_call t' = c →
  timers s' = delete j (timers s) →
  t' = t ∧ ∀ t0, t0 ∈ timers s' → t_call t0 ≠ c.
Proof.
  intros (Htc & Htr & Hf) Hj Hc Ht'.
  destruct (filter_delete_only (λ t0, t_call t0 = c ∨ t_requestId t0 = rid)
              (timers s) j t' t Hj (or_introl Hc) Hf) as [-> Hnil].
  split; [done|]. intros t0 Hin Hc0. rewrite Ht' in Hin.
  eapply (filter_nil_not_elem_of _ _ t0 Hnil); [by left|done].
Qed.

Lemma armed_new_timer (c : CallId) (rid : Z) (t t' : Timer) (s s' : State) :
  armed c rid t s → t_call t' ≠ c → t_requestId t' ≠ rid →
  timers s' = timers s ++ [t'] → armed c rid t s'.
Proof.
  intros (Htc & Htr & Hf) Hc Hrid Ht'. split; [done|]. split; [done|].
  rewrite Ht', filter_app, Hf, filter_cons_False; [done|].
  by intros [?|?].
Qed.

Lemma armed_same_timers (c : CallId) (rid : Z) (t : Timer) (s s' : State) :
  armed c rid t s → timers s' = timers s → armed c rid t s'.
Proof. unfold armed. by intros ? ->. Qed.

Lemma in_flight_listener_called_other (c : CallId) (rid i : Z) (l : Listener)
    (s s' : State) :
  l_call l = c →
  requestListeners s !! rid = Some l →
  (∀ i l', requestListeners s !! i = Some l' → l_call l' = c → i = rid) →
  i ≠ rid → listener_called i s s' →
  requestListeners s' !! rid = Some l ∧
  (∀ i l', requestListeners s' !! i = Some l' → l_call l' = c → i = rid) ∧
  settle_count c s' = settle_count c s.
Proof.
  intros Hlc Hl Huniq Hne (l0 & v & Hi & Hl' & Hs'). rewrite Hl'.
  split; [by rewrite lookup_delete_ne|]. split.
  - intros i' l' H. apply lookup_delete_Some in H as [_ H]. eauto.
  - rewrite (settle_count_snoc c _ _ _ _ Hs').
    rewrite decide_False; [lia|]. intros Hc. by apply Hne, (Huniq i l0).
Qed.

(** A turn that neither answers the call, nor fires its timer, nor reuses
    its id leaves the call in flight. *)
Lemma in_flight_effect (eff : Effect) (c : CallId) (rid : Z) (l : Listener)
    (t : Timer) (s s' : State) :
  in_flight c rid l t s → effect eff s s' →
  eff ≠ Answered rid → eff ≠ Expired c → eff ≠ Issued rid →
  eff ≠ Malformed rid →
  in_flight c rid l t s'.
Proof.
  intros (Hc & Hlc & Hl & Huniq & Harmed & Hcount) Heff Hans Hexp Hiss Hmal.
  unfold in_flight.
  destruct eff as [|i|c'|now|now]; simpl in Heff.
  - destruct Heff as ((Hl' & Hs') & Ht' & Hc'). rewrite Hl', Hc'.
    rewrite (settle_count_same c s s' Hs').
    eauto 10 using armed_same_timers.
  - destruct Heff as (Hcall & Ht' & Hc').
    assert (i ≠ rid) as Hne by congruence.
    destruct (in_flight_listener_called_other c rid i l s s'
                Hlc Hl Huniq Hne Hcall) as (? & ? & Hcount').
    rewrite Hc', Hcount'. eauto 10 using armed_same_timers.
  - destruct Heff as (j & t' & Hj & Htc & _ & Ht' & Hc' & Hcase).
    assert (t_call t' ≠ c) as Hne by congruence.
    pose proof (armed_other_timer c rid t t' j s Harmed Hj Hne) as Hrid.
    pose proof (armed_delete_other c rid t t' j s s' Harmed Hj Hne Ht').
    rewrite Hc'.
    destruct Hcase as [(_ & Hl' & Hs')|(l0 & v & Hi & Hl' & Hs')].
    + rewrite Hl', (settle_count_same c s s' Hs'). done.
    + rewrite Hl', (settle_count_snoc c _ _ _ _ Hs').
      rewrite decide_False by congruence. rewrite lookup_delete_ne by done.
      split_and!; try done; [|lia].
      intros i' l' Hi'. apply lookup_delete_Some in Hi' as [_ Hi']. eauto.
  - destruct Heff as (m & t' & k & Hmc & _ & Htc & Htr & Hl' & Ht' & Hs' & Hc').
    assert (now ≠ rid) as Hne by congruence.
    rewrite Hl', Hc', length_app, (settle_count_same c s s' Hs'). simpl.
    rewrite lookup_insert_ne by done.
    split_and!; try done; [lia| |].
    + intros i l' Hi' Hl'c. apply lookup_insert_Some in Hi' as [[_ <-]|[_ Hi']]; [|eauto].
      rewrite Hmc in Hl'c. lia.
    + apply (armed_new_timer c rid t t' s s'); [done| | |done].
      * rewrite Htc. lia.
      * by rewrite Htr.
  - destruct Heff as (Hcase & Ht' & k & Hc').
    assert (now ≠ rid) as Hne by congruence.
    rewrite Hc', length_app. simpl.
    pose proof (armed_same_timers c rid t s s' Harmed Ht').
    destruct Hcase as [(Hl' & Hs')|Hcall].
    + rewrite Hl', (settle_count_same c s s' Hs').
      split_and!; try done. lia.
    + destruct (in_flight_listener_called_other c rid now l s s'
                  Hlc Hl Huniq Hne Hcall) as (? & ? & Hcount').
      rewrite Hcount'. split_and!; try done. lia.
Qed.

(** The response to a call in flight: its listener settles the promise,
    the timer stays armed. *)
Lemma in_flight_answered (c : CallId) (rid : Z) (l : Listener) (t : Timer)
    (s s' : State) :
  in_flight c rid l t s → listener_called rid s s' →
  timers s' = timers s → (length (calls s) ≤ length (calls s'))%nat →
  answered_armed c rid t s'.
Proof.
  intros (Hc & Hlc & Hl & Huniq & Harmed & Hcount)
    (l0 & v & Hi & Hl' & Hs') Ht' Hc'.
  rewrite Hl in Hi. injection Hi as <-.
  unfold answered_armed. rewrite Hl', (settle_count_snoc c _ _ _ _ Hs'), Hcount.
  rewrite decide_True by done. rewrite lookup_delete_eq.
  split_and!; try done; [lia| |by eapply armed_same_timers].
  intros i l' H Hl'c. apply lookup_delete_Some in H as [Hne H].
  apply Hne. symmetry. eauto.
Qed.

(** The timer of a call in flight fires: the promise is settled and
    nothing can reach it any more. *)
Lemma in_flight_expired (c : CallId) (rid : Z) (l : Listener) (t : Timer)
    (s s' : State) :
  in_flight c rid l t s → effect (Expired c) s s' → finished c s'.
Proof.
  intros (Hc & Hlc & Hl & Huniq & Harmed & Hcount)
    (j & t' & Hj & Htc & _ & Ht' & Hc' & Hcase).
  destruct (armed_fires c rid t t' j s s' Harmed Hj Htc Ht') as [-> Hnone].
  destruct Harmed as (_ & Htr & _). rewrite Htr in Hcase.
  destruct Hcase as [(Hnone' & _)|(l0 & v & Hi & Hl' & Hs')]; [congruence|].
  split; [split; [by rewrite Hc'|split; [|done]]|].
  - intros i l' H Hl'c. rewrite Hl' in H.
    apply lookup_delete_Some in H as [Hne H]. apply Hne. symmetry. eauto.
  - rewrite (settle_count_snoc c _ _ _ _ Hs'), Hcount.
    by rewrite decide_True.
Qed.

(** *** A call answered before its timer fires *)

Lemma answered_armed_effect (eff : Effect) (c : CallId) (rid : Z) (t : Timer)
    (s s' : State) :
  answered_armed c rid t s → effect eff s s' →
  eff ≠ Expired c → eff ≠ Issued rid →
  answered_armed c rid t s'.
Proof.
  intros (Hc & Hnone & Hl & Harmed & Hcount) Heff Hexp Hiss.
  assert (∀ i, listener_called i s s' →
            requestListeners s' !! rid = None ∧
            (∀ i l', requestListeners s' !! i = Some l' → l_call l' ≠ c) ∧
            settle_count c s' = 1%nat) as Hcalled.
  { intros i Hcall.
    destruct (listener_called_other c i s s' Hl Hcall) as [? Hcount'].
    destruct Hcall as (l0 & v & Hi & Hl' & Hs').
    split; [|split; [done|congruence]].
    rewrite Hl'. apply lookup_delete_None. by right. }
  unfold answered_armed.
  destruct eff as [|i|c'|now|now]; simpl in Heff.
  - destruct Heff as ((Hl' & Hs') & Ht' & Hc'). rewrite Hl', Hc'.
    rewrite (settle_count_same c s s' Hs').
    eauto 10 using armed_same_timers.
  - destruct Heff as (Hcall & Ht' & Hc').
    destruct (Hcalled i Hcall) as (? & ? & ?).
    rewrite Hc'. eauto 10 using armed_same_timers.
  - destruct Heff as (j & t' & Hj & Htc & _ & Ht' & Hc' & Hcase).
    assert (t_call t' ≠ c) as Hne by congruence.
    pose proof (armed_delete_other c rid t t' j s s' Harmed Hj Hne Ht').
    rewrite Hc'.
    destruct Hcase as [(_ & Hl' & Hs')|(l0 & v & Hi & Hl' & Hs')].
    + rewrite Hl', (settle_count_same c s s' Hs'). done.
    + rewrite Hl', (settle_count_snoc c _ _ _ _ Hs').
      rewrite decide_False by congruence.
      split_and!; try done; [| |lia].
      * apply lookup_delete_None. by right.
      * intros i' l' Hi'. apply lookup_delete_Some in Hi' as [_ Hi']. eauto.
  - destruct Heff as (m & t' & k & Hmc & _ & Htc & Htr & Hl' & Ht' & Hs' & Hc').
    assert (now ≠ rid) as Hne by congruence.
    rewrite Hl', Hc', length_app, (settle_count_same c s s' Hs'). simpl.
    rewrite lookup_insert_ne by done.
    split_and!; try done; [lia| |].
    + intros i l' Hi' Hl'c. apply lookup_insert_Some in Hi' as [[_ <-]|[_ Hi']].
      * rewrite Hmc in Hl'c. lia.
      * by eapply Hl.
    + apply (armed_new_timer c rid t t' s s'); [done| | |done].
      * rewrite Htc. lia.
      * by rewrite Htr.
  - destruct Heff as (Hcase & Ht' & k & Hc').
    rewrite Hc', length_app. simpl.
    pose proof (armed_same_timers c rid t s s' Harmed Ht').
    destruct Hcase as [(Hl' & Hs')|Hcall].
    + rewrite Hl', (settle_count_same c s s' Hs').
      split_and!; try done. lia.
    + destruct (Hcalled now Hcall) as (? & ? & ?).
      split_and!; try done. lia.
Qed.

(** The timer of an answered call fires: it finds the entry gone and
    settles nothing. *)
Lemma answered_armed_expired (c : CallId) (rid : Z) (t : Timer) (s s' : State) :
  answered_armed c rid t s → effect (Expired c) s s' → finished c s'.
Proof.
  intros (Hc & Hnone & Hl & Harmed & Hcount)
    (j & t' & Hj & Htc & _ & Ht' & Hc' & Hcase).
  destruct (armed_fires c rid t t' j s s' Harmed Hj Htc Ht') as [-> Hnone'].
  destruct Harmed as (_ & Htr & _). rewrite Htr in Hcase.
  destruct Hcase as [(_ & Hl' & Hs')|(l0 & v & Hi & _)]; [|congruence].
  split; [split; [by rewrite Hc'|split; [by rewrite Hl'|done]]|].
  by rewrite (settle_count_same c s s' Hs').
Qed.

Lemma finished_effect (eff : Effect) (c : CallId) (s s' : State) :
  finished c s → effect eff s s' → finished c s'.
Proof.
  intros [Hun Hcount] Heff.
  destruct (unreferenced_effect eff c s s' Hun Heff) as [? Hcount'].
  split; [done|congruence].
Qed.


(** Every turn that returns has one of the effects its kind allows. *)
Lemma step_effect (e : Event) (s s' : State) :
  step T e s = Ok s' → ∃ eff, may_cause e eff ∧ effect eff s s'.
Proof.
  destruct e as [now method params|now appInstanceId hint|now message|c|];
    simpl.
  - intros [= <-]. destruct (callRawNodeMethod_effect now method params KCaller s);
      [by exists (Issued now)|by exists (Malformed now)].
  - intros [= <-].
    destruct (getOrCreateAppInstance_effect now appInstanceId hint KCaller s)
      as [?|[?|?]];
      [by exists Quiet|by exists (Issued now)|by exists (Malformed now)].
  - unfold onNodeMessage. case_decide as Herr.
    + destruct message as [m|ev]; [|discriminate]. intros [= <-].
      destruct (handleNodeError_effect m s) as [?|(i & Hid & _ & ?)].
      * by exists Quiet.
      * by exists (Answered i).
    + assert (∀ ev, handleNodeEvent T now ev s = Ok s' →
                ∃ eff, (eff = Quiet ∨ eff = Issued now ∨ eff = Malformed now) ∧
                       effect eff s s') as Hev.
      { intros ev. unfold handleNodeEvent, handleRejectInstallEvent,
          handleInstallEvent, handleInstallVirtualEvent.
        repeat case_decide; repeat case_match; try discriminate;
          intros [= <-];
          try (exists Quiet; split; [by left|]; by apply same_core_quiet);
          match goal with
          | |- context [getOrCreateAppInstance T now ?a ?h ?k s] =>
              destruct (getOrCreateAppInstance_effect now a h k s)
                as [?|[?|?]];
                [exists Quiet|exists (Issued now)|exists (Malformed now)];
                (split; [|done]); auto
          end. }
      destruct message as [m|ev].
      * destruct (id m) as [i|] eqn:Hid.
        -- intros [= <-].
           destruct (handleNodeMethodResponse_effect m i s);
             [by exists Quiet|by exists (Answered i)].
        -- intros H. destruct (Hev _ H) as (eff & [-> | [-> | ->]] & Heff);
             eexists; (split; [|exact Heff]); simpl; by rewrite ?Hid.
      * intros H. destruct (Hev _ H) as (eff & [-> | [-> | ->]] & Heff);
          eexists; (split; [|exact Heff]); done.
  - intros [= <-]. destruct (fireTimer_effect c s) as [[_ ->]|?];
      [|by exists (Expired c)].
    exists Quiet. split; [done|]. by apply same_core_quiet.
  - intros [= <-]. exists Quiet. split; [done|]. unfold runNextJob.
    destruct (jobs s) as [|j rest]; [by apply same_core_quiet|].
    eapply effect_same_core_l; [|apply runJob_effect]. by repeat split.
Qed.

(** *** Runs *)

Lemma run_well_formed (es : list Event) (s s' : State) :
  well_formed s → run T es s = Ok s' → well_formed s'.
Proof.
  revert s. induction es as [|e es IH]; intros s Hwf; simpl.
  - by intros [= <-].
  - destruct (step T e s) as [s1| |] eqn:Hstep; try discriminate.
    destruct (step_effect e s s1 Hstep) as (eff & _ & Heff).
    eauto using well_formed_effect.
Qed.

(** Every state a Provider can be in is well formed. *)
Lemma reachable_well_formed (es : list Event) (s : State) :
  run T es initial = Ok s → well_formed s.
Proof. apply run_well_formed, well_formed_initial. Qed.

(** Once no closure refers to a promise, no run settles it again. *)
Lemma run_unreferenced (c : CallId) (es : list Event) (s s' : State) :
  unreferenced c s → run T es s = Ok s' →
  unreferenced c s' ∧ settle_count c s' = settle_count c s.
Proof.
  revert s. induction es as [|e es IH]; intros s Hun; simpl.
  - by intros [= <-].
  - destruct (step T e s) as [s1| |] eqn:Hstep; try discriminate.
    destruct (step_effect e s s1 Hstep) as (eff & _ & Heff).
    destruct (unreferenced_effect eff c s s1 Hun Heff) as [Hun1 Hcount1].
    intros Hrun. destruct (IH s1 Hun1 Hrun) as [? ?]. split; [done|congruence].
Qed.

(** A call stays in flight as long as the turns leave it alone. *)
Lemma run_in_flight (c : CallId) (rid : Z) (l : Listener) (t : Timer)
    (es : list Event) (s s' : State) :
  in_flight c rid l t s → Forall (leaves_alone c rid) es →
  run T es s = Ok s' → in_flight c rid l t s'.
Proof.
  revert s. induction es as [|e es IH]; intros s Hin Hes; simpl.
  - by intros [= <-].
  - apply Forall_cons in Hes as [(Hans & Hfire & Hclock) Hes].
    destruct (step T e s) as [s1| |] eqn:Hstep; try discriminate.
    destruct (step_effect e s s1 Hstep) as (eff & Hcause & Heff).
    apply IH; [|done].
    apply (in_flight_effect eff c rid l t s s1); [done|done|..];
      intros ->; simpl in Hcause; congruence.
Qed.

(** A call with a resolvable method name and an id no armed timer has is
    in flight when [callRawNodeMethod] returns. *)
Lemma callRawNodeMethod_in_flight (now : Z) (method : string)
    (params : MethodParams) (k : Cont) (s : State) :
  well_formed s → method ≠ "" →
  (∀ t, t ∈ timers s → t_requestId t ≠ now) →
  in_flight (length (calls s)) now
    {| l_methodName := method; l_requestId := now; l_call := length (calls s) |}
    {| t_delay := NODE_REQUEST_TIMEOUT; t_requestId := now;
       t_request := jsonRpcDeserialize params method now;
       t_call := length (calls s) |}
    (callRawNodeMethod T now method params k s).
Proof.
  intros (Hl & Ht & Hs) Hm Hfresh.
  destruct (callRawNodeMethod_issues T now method params k s Hm)
    as (Hl' & Ht' & _ & Hc' & Hs' & _).
  unfold in_flight, armed. rewrite Hl', Ht', Hc', length_app. simpl.
  rewrite lookup_insert_eq. split_and!; try done; [lia| | |].
  - intros i l' Hi Hcall. apply lookup_insert_Some in Hi as [[? _]|[_ Hi]];
      [done|]. apply Hl in Hi. lia.
  - rewrite filter_app, filter_cons_True by (by left). simpl.
    replace (filter _ (timers s)) with (@nil Timer); [done|].
    symmetry. apply elem_of_nil_inv. intros t' Hin.
    apply list_elem_of_filter in Hin as [[Hc|Hr] Hin].
    + apply Ht in Hin. lia.
    + by apply Hfresh in Hin.
  - rewrite (settle_count_same _ s _ Hs'). apply settle_count_absent.
    intros v Hin. apply Hs in Hin. lia.
Qed.

(** The armed timer of a call is the one [TimerFires] picks. *)
Lemma armed_found (c : CallId) (rid : Z) (t : Timer) (s : State) :
  armed c rid t s →
  ∃ j, list_find (λ t', t_call t' = c) (timers s) = Some (j, t).
Proof.
  intros (Htc & Htr & Hf).
  assert (t ∈ timers s) as Hin.
  { assert (t ∈ filter (λ t', t_call t' = c ∨ t_requestId t' = rid) (timers s))
      as H by (rewrite Hf; left).
    by apply list_elem_of_filter in H as [_ H]. }
  destruct (list_find_elem_of (λ t', t_call t' = c) (timers s) t Hin Htc)
    as [[j t'] Hfind].
  exists j. rewrite Hfind. do 2 f_equal.
  apply list_find_Some in Hfind as (Hj & Hc & _).
  assert (t' ∈ filter (λ t', t_call t' = c ∨ t_requestId t' = rid) (timers s))
    as H.
  { apply list_elem_of_filter. split; [by left|]. by eapply list_elem_of_lookup_2. }
  rewrite Hf in H. by apply list_elem_of_singleton in H.
Qed.

Lemma run_finished (c : CallId) (es : list Event) (s s' : State) :
  finished c s → run T es s = Ok s' → finished c s'.
Proof.
  intros [Hun Hcount] Hrun.
  destruct (run_unreferenced c es s s' Hun Hrun) as [? ?].
  split; [done|congruence].
Qed.

Lemma tracked_step (c : CallId) (rid : Z) (l : Listener) (t : Timer)
    (e : Event) (s s' : State) :
  tracked c rid l t s → clock e ≠ Some rid → step T e s = Ok s' →
  tracked c rid l t s' ∧ (e = TimerFires c → finished c s').
Proof.
  intros Htr Hclock Hstep. destruct (decide (e = TimerFires c)) as [->|Hfire].
  - simpl in Hstep. injection Hstep as <-.
    assert (finished c (fireTimer T c s)) as Hfin; [|split; [|done]].
    2: { right. by right. }
    destruct (fireTimer_effect c s) as [[Hnone Hsame]|Heff].
    + destruct Htr as [Hin|[Hans|Hfin]].
      * destruct Hin as (_ & _ & _ & _ & Harmed & _).
        destruct (armed_found c rid t s Harmed) as [j Hj]. congruence.
      * destruct Hans as (_ & _ & _ & Harmed & _).
        destruct (armed_found c rid t s Harmed) as [j Hj]. congruence.
      * by rewrite Hsame.
    + destruct Htr as [Hin|[Hans|Hfin]];
        eauto using in_flight_expired, answered_armed_expired, finished_effect.
  - split; [|done].
    destruct (step_effect e s s' Hstep) as (eff & Hcause & Heff).
    assert (eff ≠ Expired c) as Hexp by (intros ->; simpl in Hcause; done).
    assert (eff ≠ Issued rid) as Hiss
      by (intros ->; simpl in Hcause; done).
    assert (eff ≠ Malformed rid) as Hmal
      by (intros ->; simpl in Hcause; done).
    destruct Htr as [Hin|[Hans|Hfin]].
    + destruct (decide (eff = Answered rid)) as [->|Hne].
      * right; left. destruct Heff as (Hcall & Ht' & Hc').
        apply (in_flight_answered c rid l t s s'); [done|done|done|].
        by rewrite Hc'.
      * left. by apply (in_flight_effect eff c rid l t s s').
    + right; left. by apply (answered_armed_effect eff c rid t s s').
    + right; right. by apply (finished_effect eff c s s').
Qed.

Lemma run_tracked (c : CallId) (rid : Z) (l : Listener) (t : Timer)
    (es : list Event) (s s' : State) :
  tracked c rid l t s → Forall (λ e, clock e ≠ Some rid) es →
  run T es s = Ok s' →
  tracked c rid l t s' ∧ (TimerFires c ∈ es → finished c s').
Proof.
  revert s. induction es as [|e es IH]; intros s Htr Hes; simpl.
  - intros [= <-]. split; [done|]. by intros H%not_elem_of_nil.
  - apply Forall_cons in Hes as [Hclock Hes].
    destruct (step T e s) as [s1| |] eqn:Hstep; try discriminate.
    intros Hrun.
    destruct (tracked_step c rid l t e s s1 Htr Hclock Hstep) as [Htr1 Hfire1].
    destruct (IH s1 Htr1 Hes Hrun) as [Htr' Hfire']. split; [done|].
    intros [Heq|Hin]%elem_of_cons; [|by apply Hfire'].
    eapply run_finished; [by apply Hfire1|done].
Qed.

Lemma tracked_settle_count (c : CallId) (rid : Z) (l : Listener) (t : Timer)
    (s : State) :
  tracked c rid l t s →
  (settle_count c s ≤ 1)%nat ∧
  (settle_count c s = 0%nat ↔ requestListeners s !! rid = Some l ∧ ¬ finished c s).
Proof.
  intros [Hin|[Hans|Hfin]].
  - destruct Hin as (Hc & Hlc & Hl & _ & _ & Hcount). rewrite Hcount.
    split; [lia|]. split; [|done]. intros _. split; [done|].
    intros [(_ & Hno & _) _]. by apply (Hno rid l).
  - destruct Hans as (_ & Hnone & _ & _ & Hcount). rewrite Hcount, Hnone.
    split; [lia|]. split; [done|]. by intros [? _].
  - destruct Hfin as [Hun Hcount]. rewrite Hcount.
    split; [lia|]. split; [done|]. intros [_ Hnot]. by destruct Hnot.
Qed.


(** The promise of a call is the next one, awaited by [k]. *)
Lemma callRawNodeMethod_awaiter (now : Z) (method : string)
    (params : MethodParams) (k : Cont) (s : State) :
  calls (callRawNodeMethod T now method params k s) !! length (calls s) = Some k.
Proof.
  assert (calls (callRawNodeMethod T now method params k s) = calls s ++ [k])
    as ->; [|by rewrite lookup_app_r, Nat.sub_diag].
  destruct (decide (method = "")) as [->|Hm].
  - by destruct (callRawNodeMethod_malformed T now params k s)
      as (_ & _ & _ & ? & _).
  - by destruct (callRawNodeMethod_issues T now method params k s Hm)
      as (_ & _ & _ & ? & _).
Qed.

(** The log of settlements only grows. *)
Lemma effect_settled (eff : Effect) (s s' : State) :
  effect eff s s' → ∃ vs, settled s' = settled s ++ vs.
Proof.
  assert (∀ i, listener_called i s s' → ∃ vs, settled s' = settled s ++ vs)
    as Hcalled by (intros i (l & v & _ & _ & ->); eauto).
  assert (same_pending s s' → ∃ vs, settled s' = settled s ++ vs)
    as Hsame by (intros [_ ->]; exists []; by rewrite app_nil_r).
  destruct eff; simpl.
  - intros (? & _). auto.
  - intros (? & _). eauto.
  - intros (j & t & _ & _ & _ & _ & _ & [[_ ?]|(l & v & _ & _ & ->)]); eauto.
  - intros (m & t & k & _ & _ & _ & _ & _ & _ & -> & _).
    exists []. by rewrite app_nil_r.
  - intros ([?|?] & _); eauto.
Qed.

Lemma run_settle_count_mono (c : CallId) (es : list Event) (s s' : State) :
  run T es s = Ok s' → (settle_count c s ≤ settle_count c s')%nat.
Proof.
  revert s. induction es as [|e es IH]; intros s; simpl.
  - by intros [= <-].
  - destruct (step T e s) as [s1| |] eqn:Hstep; try discriminate.
    destruct (step_effect e s s1 Hstep) as (eff & _ & Heff).
    destruct (effect_settled eff s s1 Heff) as [vs Hvs].
    intros Hrun. apply IH in Hrun.
    assert (settle_count c s ≤ settle_count c s1)%nat; [|lia].
    unfold settle_count. rewrite Hvs, filter_app, length_app. lia.
Qed.

(** The promises already made keep their place and their awaiter. *)
Lemma effect_calls (eff : Effect) (s s' : State) :
  effect eff s s' → ∃ ks, calls s' = calls s ++ ks.
Proof.
  destruct eff; simpl.
  - intros (_ & _ & ->). exists []. by rewrite app_nil_r.
  - intros (_ & _ & ->). exists []. by rewrite app_nil_r.
  - intros (j & t & _ & _ & _ & _ & -> & _). exists []. by rewrite app_nil_r.
  - intros (m & t & k & _ & _ & _ & _ & _ & _ & _ & ->). by exists [k].
  - intros (_ & _ & k & ->). by exists [k].
Qed.

Lemma run_calls_lookup (c : CallId) (k : Cont) (es : list Event) (s s' : State) :
  calls s !! c = Some k → run T es s = Ok s' → calls s' !! c = Some k.
Proof.
  revert s. induction es as [|e es IH]; intros s Hk; simpl.
  - by intros [= <-].
  - destruct (step T e s) as [s1| |] eqn:Hstep; try discriminate.
    destruct (step_effect e s s1 Hstep) as (eff & _ & Heff).
    destruct (effect_calls eff s s1 Heff) as [ks Hks].
    apply IH. rewrite Hks. by apply lookup_app_l_Some.
Qed.

(** The timer of a call in flight fires: [reject] is called with the
    request_timeout error, the code awaiting the promise is handed that
    error, the entry is removed, and the call is over. *)
Lemma fireTimer_in_flight (c : CallId) (rid : Z) (l : Listener) (t : Timer)
    (k : Cont) (s : State) :
  in_flight c rid l t s → calls s !! c = Some k →
  let v :=
    Reject (ThrownPayload
      {| type := EventType_ERROR T;
         body := ErrorData "request_timeout"
                   (Some ("Request timed out: "
                          +:+ JSON_stringify_request T (t_request t))) |}) in
  settled (fireTimer T c s) = settled s ++ [(c, v)] ∧
  jobs (fireTimer T c s) = jobs s ++ [(k, Settlement_value v)] ∧
  requestListeners (fireTimer T c s) = delete rid (requestListeners s) ∧
  finished c (fireTimer T c s).
Proof.
  intros Hin Hk. simpl.
  assert (finished c (fireTimer T c s)) as Hfin.
  { destruct (fireTimer_effect c s) as [[Hnone _]|Heff];
      [|by eapply in_flight_expired].
    destruct Hin as (_ & _ & _ & _ & Harmed & _).
    destruct (armed_found c rid t s Harmed) as [j Hj]. congruence. }
  destruct Hin as (_ & _ & Hl & _ & Harmed & Hcount).
  destruct (armed_found c rid t s Harmed) as [j Hfind].
  destruct Harmed as (Htc & Htr & _).
  revert Hfin. unfold fireTimer. rewrite Hfind. intros Hfin.
  destruct (onTimeout_pending T t (set_timers (delete j) s)) as [Hs' Hl'];
    [simpl; by rewrite Htr, Hl|].
  rewrite Hs', Hl', Htc, Htr. split; [done|]. split; [|done].
  unfold onTimeout. simpl. rewrite Htr, Hl, Htc. simpl.
  rewrite (settle_jobs c _ (set_timers (delete j) s) k) by done.
  by rewrite decide_True.
Qed.

(** Property X20: the timeout of a call. In a Provider state reached by the
    class itself (every listener, timer and logged settlement belongs to a
    call already made), a call with a resolvable method name, made when no
    armed timer belongs to a request with its id, arms a timer with delay
    30000. If the turns that follow deliver no message with its id and issue
    no request under its id, the call is unsettled until its timer fires;
    the timer's callback then invokes reject with {type: ERROR, data:
    {errorName: request_timeout, message: 'Request timed out: ' +
    JSON.stringify(request)}}, the awaiting code is handed that error, the
    pending entry is deleted, and this is the one settlement of the call. *)
Theorem unanswered_call_times_out (now : Z) (method : string)
    (params : MethodParams) (k : Cont) (es : list Event) (s s2 : State) :
  well_formed s → method ≠ "" →
  (∀ t, t ∈ timers s → t_requestId t ≠ now) →
  Forall (leaves_alone (length (calls s)) now) es →
  run T es (callRawNodeMethod T now method params k s) = Ok s2 →
  let c := length (calls s) in
  let request := jsonRpcDeserialize params method now in
  let error :=
    ThrownPayload
      {| type := EventType_ERROR T;
         body := ErrorData "request_timeout"
                   (Some ("Request timed out: "
                          +:+ JSON_stringify_request T request)) |} in
  {| t_delay := 30000; t_requestId := now; t_request := request; t_call := c |}
    ∈ timers s2 ∧
  settle_count c s2 = 0%nat ∧
  ∃ s3, step T (TimerFires c) s2 = Ok s3 ∧
        settled s3 = settled s2 ++ [(c, Reject error)] ∧
        jobs s3 = jobs s2 ++ [(k, VThrown error)] ∧
        requestListeners s3 = delete now (requestListeners s2) ∧
        settle_count c s3 = 1%nat.
Proof.
  intros Hwf Hm Hfresh Hes Hrun. simpl.
  pose proof (callRawNodeMethod_in_flight now method params k s Hwf Hm Hfresh)
    as Hin0.
  pose proof (run_in_flight _ _ _ _ es _ s2 Hin0 Hes Hrun) as Hin.
  assert (calls s2 !! length (calls s) = Some k) as Hk
    by (eapply run_calls_lookup; [apply callRawNodeMethod_awaiter|exact Hrun]).
  destruct (fireTimer_in_flight _ _ _ _ k s2 Hin Hk)
    as (Hs3 & Hj3 & Hl3 & _ & Hcount3).
  destruct Hin as (_ & _ & _ & _ & Harmed & Hcount).
  destruct (armed_found _ _ _ s2 Harmed) as [j Hfind].
  apply list_find_Some in Hfind as (Hj & _).
  split; [by eapply list_elem_of_lookup_2|]. split; [done|].
  eexists. split; [reflexivity|]. done.
Qed.

(** A response that arrives after the timer of its call has fired finds no
    entry: it is published as an orphaned_response error and the call,
    settled once by its timer, is not settled again. *)
Lemma late_response_is_orphaned (now now' : Z) (method : string)
    (params : MethodParams) (k : Cont) (es : list Event) (s s2 : State)
    (response : JsonRpcResponse) :
  well_formed s → method ≠ "" →
  (∀ t, t ∈ timers s → t_requestId t ≠ now) →
  Forall (leaves_alone (length (calls s)) now) es →
  run T es (callRawNodeMethod T now method params k s) = Ok s2 →
  id response = Some now →
  type (result response) ≠ ErrorType_ERROR T →
  let c := length (calls s) in
  ∃ s3 s4, step T (TimerFires c) s2 = Ok s3 ∧
           step T (NodeMessage now' (Rpc response)) s3 = Ok s4 ∧
           emitted s4 =
             emitted s3 ++
             [(EventType_ERROR T,
               {| type := EventType_ERROR T;
                  body := ErrorData "orphaned_response"
                            (Some ("Response has no corresponding inflight request: "
                                   +:+ JSON_stringify_response T response)) |})] ∧
           settled s4 = settled s3 ∧
           settle_count c s4 = 1%nat.
Proof.
  intros Hwf Hm Hfresh Hes Hrun Hid Hty. simpl.
  pose proof (callRawNodeMethod_in_flight now method params k s Hwf Hm Hfresh)
    as Hin0.
  pose proof (run_in_flight _ _ _ _ es _ s2 Hin0 Hes Hrun) as Hin.
  assert (calls s2 !! length (calls s) = Some k) as Hk
    by (eapply run_calls_lookup; [apply callRawNodeMethod_awaiter|exact Hrun]).
  destruct (fireTimer_in_flight _ _ _ _ k s2 Hin Hk)
    as (_ & _ & Hl3 & _ & Hcount3).
  exists (fireTimer T (length (calls s)) s2),
         (handleNodeMethodResponse T response now
            (fireTimer T (length (calls s)) s2)).
  split; [reflexivity|]. split; [by apply onNodeMessage_response|].
  unfold handleNodeMethodResponse. rewrite Hl3, lookup_delete_eq. simpl.
  split; [done|]. split; [done|].
  by rewrite <- Hcount3.
Qed.

(** A response of the wrong type to a call in flight is final: the call
    is rejected with the unexpected_message_type error and no later turn
    settles it again, as long as its id is not taken again. *)
Lemma mismatched_response_is_final (now now' : Z) (method : string)
    (params : MethodParams) (k : Cont) (es es' : list Event) (s s2 s4 : State)
    (response : JsonRpcResponse) :
  well_formed s → method ≠ "" →
  (∀ t, t ∈ timers s → t_requestId t ≠ now) →
  Forall (leaves_alone (length (calls s)) now) es →
  run T es (callRawNodeMethod T now method params k s) = Ok s2 →
  id response = Some now →
  type (result response) ≠ ErrorType_ERROR T →
  type (result response) ≠ method →
  Forall (λ e, clock e ≠ Some now) es' →
  let c := length (calls s) in
  ∃ s3, step T (NodeMessage now' (Rpc response)) s2 = Ok s3 ∧
        settled s3 =
          settled s2 ++
          [(c, Reject (ThrownResponse
                 (jsonRpcSerializeAsResponse
                    {| type := EventType_ERROR T;
                       body := ErrorData "unexpected_message_type"
                                 (Some ("Unexpected response type. Expected "
                                        +:+ method +:+ ", got "
                                        +:+ type (result response))) |}
                    now)))] ∧
        (run T es' s3 = Ok s4 → settle_count c s4 = 1%nat).
Proof.
  intros Hwf Hm Hfresh Hes Hrun Hid Hty Hmis Hes'. simpl.
  pose proof (callRawNodeMethod_in_flight now method params k s Hwf Hm Hfresh)
    as Hin0.
  pose proof (run_in_flight _ _ _ _ es _ s2 Hin0 Hes Hrun) as Hin.
  exists (handleNodeMethodResponse T response now s2).
  split; [by apply onNodeMessage_response|].
  assert (Hl := Hin). destruct Hl as (_ & _ & Hl & _).
  unfold handleNodeMethodResponse. rewrite Hl.
  destruct (listener_called_intro
              {| l_methodName := method; l_requestId := now;
                 l_call := length (calls s) |} response now s2 Hl)
    as (Hcalled & Ht3 & Hc3).
  split.
  - unfold listener. simpl.
    rewrite decide_False by done. rewrite decide_True by done. simpl.
    match goal with |- context [settle ?c0 ?v ?s0] =>
      by destruct (settle_fields c0 v s0) as (-> & _) end.
  - intros Hrun'.
    assert (answered_armed (length (calls s)) now
              {| t_delay := NODE_REQUEST_TIMEOUT; t_requestId := now;
                 t_request := jsonRpcDeserialize params method now;
                 t_call := length (calls s) |}
              (set_requestListeners (delete now)
                 (listener T
                    {| l_methodName := method; l_requestId := now;
                       l_call := length (calls s) |} response s2))) as Hans
      by (eapply in_flight_answered;
            [exact Hin|exact Hcalled|exact Ht3|by rewrite Hc3]).
    destruct (run_tracked _ _
                {| l_methodName := method; l_requestId := now;
                   l_call := length (calls s) |} _ es' _ s4
                (or_intror (or_introl Hans)) Hes' Hrun') as [Htr _].
    destruct (tracked_settle_count _ _ _ _ s4 Htr) as [Hle _].
    pose proof (run_settle_count_mono (length (calls s)) es' _ s4 Hrun') as Hge.
    destruct Hans as (_ & _ & _ & _ & Hone). lia.
Qed.

(** A refused call leaves no closure behind. *)
Lemma callRawNodeMethod_malformed_unreferenced (now : Z)
    (params : MethodParams) (k : Cont) (s : State) :
  well_formed s →
  unreferenced (length (calls s)) (callRawNodeMethod T now "" params k s) ∧
  settle_count (length (calls s)) (callRawNodeMethod T now "" params k s)
    = 0%nat.
Proof.
  intros Hwf.
  assert (effect (Malformed now) s
            (set_calls (λ l, l ++ [k]) s)) as Hcalls.
  { split; [by left|]. split; [done|]. by exists k. }
  pose proof (well_formed_effect _ _ _ Hwf Hcalls) as (Hl0 & Ht0 & Hs0).
  destruct Hwf as (Hl & Ht & Hs).
  assert (unreferenced (length (calls s)) (set_calls (λ l, l ++ [k]) s) ∧
          settle_count (length (calls s)) (set_calls (λ l, l ++ [k]) s)
            = 0%nat) as [Hun Hcount].
  { split; [split; [|split]|]; simpl.
    - rewrite length_app. simpl. lia.
    - intros i l Hi. apply Hl in Hi. lia.
    - intros t Hin. apply Ht in Hin. lia.
    - apply settle_count_absent. simpl. intros v Hin. apply Hs in Hin. lia. }
  destruct (callRawNodeMethod_malformed T now params k s) as (Heq & _).
  simpl in Heq. rewrite Heq.
  destruct (handleNodeError_effect
    {| result := {| type := EventType_ERROR T;
                    body := ErrorData "unexpected_event_type" None |};
       id := Some now |} (set_calls (λ l, l ++ [k]) s))
    as [Heff|(i & _ & _ & Heff)];
    destruct (unreferenced_effect _ _ _ _ Hun Heff) as [? Hcount'];
    (split; [done|congruence]).
Qed.

(** Claim C9, on the code: a call whose method name cannot be resolved
    sends nothing and arms no timer, as claimed; but neither [resolve] nor
    [reject] of its promise is invoked, then or in any later turn. *)
Theorem malformed_call_never_settles (now : Z) (params : MethodParams)
    (k : Cont) (s : State) :
  well_formed s →
  let c := length (calls s) in
  let s1 := callRawNodeMethod T now "" params k s in
  sent s1 = sent s ∧ timers s1 = timers s ∧
  calls s1 !! c = Some k ∧
  ∀ es s', run T es s1 = Ok s' → settle_count c s' = 0%nat.
Proof.
  intros Hwf. simpl.
  destruct (callRawNodeMethod_malformed T now params k s)
    as (_ & Hsent & Htimers & Hcalls & _). simpl in *.
  split; [done|]. split; [done|]. split.
  - rewrite Hcalls. by rewrite lookup_app_r, Nat.sub_diag.
  - intros es s' Hrun.
    destruct (callRawNodeMethod_malformed_unreferenced now params k s Hwf)
      as [Hun Hcount].
    destruct (run_unreferenced _ es _ s' Hun Hrun) as [_ Hcount'].
    congruence.
Qed.

End Runs.

(* ===================================================================== *)
(** ** Examples, with the sample values *)
(* ===================================================================== *)

Lemma mismatched_response_rejects_witness :
  ∃ s', onNodeMessage sample_types 7
          (Rpc {| result := {| type := "deposit"; body := OtherData [] |};
                  id := Some 5 |})
          (callRawNodeMethod sample_types 5 "install" (OtherParams []) KCaller
             initial) = Ok s' ∧
        settled s' =
          [(0%nat,
            Reject (ThrownResponse
              {| result :=
                   {| type := "error";
                      body := ErrorData "unexpected_message_type"
                                (Some "Unexpected response type. Expected install, got deposit") |};
                 id := Some 5 |}))] ∧
        requestListeners s' = ∅.
Proof.
  destruct (mismatched_response_rejects sample_types 7
              (callRawNodeMethod sample_types 5 "install" (OtherParams [])
                 KCaller initial)
              {| l_methodName := "install"; l_requestId := 5; l_call := 0%nat |}
              {| result := {| type := "deposit"; body := OtherData [] |};
                 id := Some 5 |} 5)
    as (s' & Hrun & Hset & Hreq & _);
    [reflexivity | reflexivity | discriminate | discriminate |].
  exists s'. split; [exact Hrun|]. split; [exact Hset|].
  rewrite Hreq. reflexivity.
Defined.

Lemma orphaned_response_publishes_error_witness :
  ∃ s', onNodeMessage sample_types 7
          (Rpc {| result := {| type := "install"; body := OtherData [] |};
                  id := Some 5 |}) initial = Ok s' ∧
        emitted s' =
          [("error",
            {| type := "error";
               body := ErrorData "orphaned_response"
                         (Some "Response has no corresponding inflight request: {type:install,id:5}") |})] ∧
        settled s' = [] ∧ jobs s' = [].
Proof.
  destruct (orphaned_response_publishes_error sample_types 7 initial
              {| result := {| type := "install"; body := OtherData [] |};
                 id := Some 5 |} 5)
    as (s' & Hrun & Hem & Hset & Hjobs & _);
    [reflexivity | reflexivity | discriminate |].
  exists s'. split; [exact Hrun|]. split; [exact Hem|]. by split.
Defined.

(** Claim C5, on the code: every message with an error tag is to be
    republished, whether or not a call awaits it. [onNodeMessage] reads the
    tag of a plain event as well and hands the event to [handleNodeError],
    which reads [error.result.type]: a plain event has no [result], so the
    handler throws and nothing is published. *)
Lemma plain_error_event_is_not_republished :
  let message :=
    PlainEvent {| type := "error"; body := ErrorData "node_failure" None |} in
  message_type message ∈ ErrorType_values sample_types ∧
  onNodeMessage sample_types 7 message initial = TypeError ∧
  ¬ ∃ s', onNodeMessage sample_types 7 message initial = Ok s' ∧
          ("error", {| type := "error"; body := ErrorData "node_failure" None |})
            ∈ emitted s'.
Proof.
  simpl. split; [by apply list_elem_of_singleton|]. split; [reflexivity|].
  intros (s' & Hrun & _). discriminate.
Qed.

Lemma error_message_fails_call_and_is_republished_witness :
  ∃ s', onNodeMessage sample_types 7
          (Rpc {| result := {| type := "error";
                               body := ErrorData "node_failure" None |};
                  id := Some 5 |})
          (callRawNodeMethod sample_types 5 "install" (OtherParams []) KCaller
             initial) = Ok s' ∧
        emitted s' =
          [("error", {| type := "error"; body := ErrorData "node_failure" None |})] ∧
        settled s' =
          [(0%nat,
            Reject (ThrownResponse
              {| result := {| type := "error";
                              body := ErrorData "node_failure" None |};
                 id := Some 5 |}))] ∧
        requestListeners s' = ∅.
Proof.
  destruct (error_message_fails_call_and_is_republished sample_types 7
              (callRawNodeMethod sample_types 5 "install" (OtherParams [])
                 KCaller initial)
              {| result := {| type := "error";
                              body := ErrorData "node_failure" None |};
                 id := Some 5 |})
    as (s' & Hrun & Hem & Hcall & _); [reflexivity|].
  destruct (Hcall 5
              {| l_methodName := "install"; l_requestId := 5; l_call := 0%nat |})
    as [Hset Hreq]; [reflexivity | discriminate | reflexivity |].
  exists s'. split; [exact Hrun|]. split; [exact Hem|]. split; [exact Hset|].
  rewrite Hreq. reflexivity.
Defined.

Lemma getOrCreateAppInstance_cached_witness :
  let first := {| identityHash := "0xABC"; otherFields := [("timeout", "10")] |} in
  let second := {| identityHash := "0xABC"; otherFields := [("timeout", "99")] |} in
  let s := getOrCreateAppInstance sample_types 1 "0xABC" (Some first) KCaller
             initial in
  let s' := getOrCreateAppInstance sample_types 2 "0xABC" (Some second) KCaller
              s in
  appInstances s !! "0xABC" = Some (new_AppInstance first) ∧
  jobs s' = jobs s ++ [(KCaller, VAppInstance (new_AppInstance first))] ∧
  appInstances s' = appInstances s ∧ sent s' = [].
Proof.
  simpl. split; [reflexivity|].
  destruct (getOrCreateAppInstance_cached sample_types 2 "0xABC"
              (new_AppInstance
                 {| identityHash := "0xABC"; otherFields := [("timeout", "10")] |})
              (Some {| identityHash := "0xABC";
                       otherFields := [("timeout", "99")] |})
              KCaller
              (getOrCreateAppInstance sample_types 1 "0xABC"
                 (Some {| identityHash := "0xABC";
                          otherFields := [("timeout", "10")] |})
                 KCaller initial))
    as (_ & _ & Hjobs & Hreg & _ & _ & Hsent & _); [reflexivity|].
  split; [exact Hjobs|]. split; [exact Hreg|]. exact Hsent.
Defined.

(** Claim C7, as written, promises that the published event carries the
    identityHash of the payload. When the registry already holds a record
    under that hash, the cached record is published whatever it carries:
    here a record registered under 0xABC from details naming 0xDEF. *)
Lemma reject_install_republishes_the_cached_record :
  let other := {| identityHash := "0xDEF"; otherFields := [] |} in
  let supplied := {| identityHash := "0xABC"; otherFields := [] |} in
  ∃ s', run sample_types
          [ GetOrCreateAppInstance 1 "0xABC" (Some other);
            RunJob;
            NodeMessage 2
              (PlainEvent {| type := "rejectInstallEvent";
                             body := RejectInstallEventData supplied |});
            RunJob ]
          initial = Ok s' ∧
        emitted s' =
          [("rejectInstall",
            {| type := "rejectInstall";
               body := AppInstanceData (new_AppInstance other) |})] ∧
        AppInstance_identityHash (new_AppInstance other) ≠ identityHash supplied.
Proof.
  simpl. eexists. split; [reflexivity|]. split; [reflexivity|]. discriminate.
Qed.

(** The amended C7 leaves out an identityHash that names a member the
    registry object inherits: [id in this.appInstances] holds for it on a
    new Provider, so nothing is stored and the event carries the inherited
    member. *)
Lemma reject_install_of_inherited_name_stores_nothing :
  let supplied := {| identityHash := "constructor"; otherFields := [] |} in
  ∃ s', run sample_types
          [ NodeMessage 2
              (PlainEvent {| type := "rejectInstallEvent";
                             body := RejectInstallEventData supplied |});
            RunJob ]
          initial = Ok s' ∧
        appInstances s' = ∅ ∧
        emitted s' =
          [("rejectInstall",
            {| type := "rejectInstall";
               body := PrototypeMemberData "constructor" |})] ∧
        sent s' = [].
Proof. simpl. eexists. by split_and!. Qed.

Lemma reject_install_event_registers_and_republishes_witness :
  let supplied := {| identityHash := "0xABC"; otherFields := [] |} in
  ∃ s', handleRejectInstallEvent sample_types 2
          {| type := "rejectInstallEvent";
             body := RejectInstallEventData supplied |} initial = Ok s' ∧
        appInstances s' = {[ "0xABC" := new_AppInstance supplied ]} ∧
        jobs s' = [(KEmit "rejectInstall", VAppInstance (new_AppInstance supplied))] ∧
        emitted (runNextJob s') =
          [("rejectInstall",
            {| type := "rejectInstall";
               body := AppInstanceData (new_AppInstance supplied) |})] ∧
        sent s' = [] ∧
        AppInstance_identityHash (new_AppInstance supplied) = "0xABC".
Proof.
  simpl.
  destruct (reject_install_event_registers_and_republishes sample_types 2
              {| type := "rejectInstallEvent";
                 body := RejectInstallEventData
                           {| identityHash := "0xABC"; otherFields := [] |} |}
              {| identityHash := "0xABC"; otherFields := [] |} initial)
    as (s' & Hrun & Hreg & Hjobs & Hjob & Hsent & _ & _ & _ & Hnew);
    [reflexivity|compute_done|].
  exists s'. split; [exact Hrun|]. split; [exact Hreg|]. split; [exact Hjobs|].
  split.
  - injection Hrun as <-. reflexivity.
  - split; [exact Hsent|]. by destruct Hnew.
Defined.

Lemma unanswered_call_times_out_witness :
  ∃ s2 s3,
    run sample_types
      [ CallRawNodeMethod 6 "deposit" (OtherParams []);
        NodeMessage 7
          (Rpc {| result := {| type := "deposit"; body := OtherData [] |};
                  id := Some 6 |}) ]
      (callRawNodeMethod sample_types 5 "install" (OtherParams []) KCaller
         initial) = Ok s2 ∧
    step sample_types (TimerFires 0%nat) s2 = Ok s3 ∧
    settled s3 =
      settled s2 ++
      [(0%nat,
        Reject (ThrownPayload
          {| type := "error";
             body := ErrorData "request_timeout"
                       (Some "Request timed out: {method:install,id:5}") |}))] ∧
    requestListeners s3 !! 5 = None.
Proof.
  assert (∃ s2,
    run sample_types
      [ CallRawNodeMethod 6 "deposit" (OtherParams []);
        NodeMessage 7
          (Rpc {| result := {| type := "deposit"; body := OtherData [] |};
                  id := Some 6 |}) ]
      (callRawNodeMethod sample_types 5 "install" (OtherParams []) KCaller
         initial) = Ok s2) as [s2 Hrun] by (eexists; reflexivity).
  destruct (unanswered_call_times_out sample_types 5 "install" (OtherParams [])
              KCaller
              [ CallRawNodeMethod 6 "deposit" (OtherParams []);
                NodeMessage 7
                  (Rpc {| result := {| type := "deposit"; body := OtherData [] |};
                          id := Some 6 |}) ]
              initial s2 well_formed_initial)
    as (_ & _ & s3 & Hstep & Hset & _ & Hreq & _);
    [discriminate
    | intros t Hin; by apply not_elem_of_nil in Hin
    | repeat constructor; simpl; discriminate
    | exact Hrun |].
  exists s2, s3. split; [exact Hrun|]. split; [exact Hstep|].
  split; [exact Hset|]. rewrite Hreq. apply lookup_delete_eq.
Defined.

Lemma malformed_call_never_settles_witness :
  let s1 := callRawNodeMethod sample_types 5 "" (OtherParams []) KCaller initial in
  sent s1 = [] ∧ timers s1 = [] ∧
  emitted s1 =
    [("error", {| type := "error";
                  body := ErrorData "unexpected_event_type" None |})] ∧
  ∀ es s', run sample_types es s1 = Ok s' → settle_count 0%nat s' = 0%nat.
Proof.
  simpl.
  destruct (malformed_call_never_settles sample_types 5 (OtherParams []) KCaller
              initial well_formed_initial)
    as (Hsent & Htimers & _ & Hnever).
  split; [exact Hsent|]. split; [exact Htimers|]. split; [reflexivity|].
  exact Hnever.
Defined.

(** Claim C2, on the code: the id of a request is the clock value at the
    call, so two calls in one millisecond share one entry of the pending
    table. When the node answers neither and both timers fire, the timer
    of the first call rejects the first call and removes the shared entry;
    the timer of the second call finds no entry, and [reject] of the
    second call is not invoked, in that turn or any later one. *)
Theorem same_tick_call_is_never_timed_out :
  ∃ s, run sample_types
         [ CallRawNodeMethod 5 "install" (OtherParams []);
           CallRawNodeMethod 5 "deposit" (OtherParams []);
           TimerFires 0%nat; TimerFires 1%nat ]
         initial = Ok s ∧
       settled s =
         [(0%nat,
           Reject (ThrownPayload
             {| type := "error";
                body := ErrorData "request_timeout"
                          (Some "Request timed out: {method:install,id:5}") |}))] ∧
       settle_count 1%nat s = 0%nat ∧
       timers s = [] ∧ requestListeners s = ∅ ∧
       ∀ es s', run sample_types es s = Ok s' → settle_count 1%nat s' = 0%nat.
Proof.
  eexists. split; [reflexivity|]. split; [reflexivity|].
  split; [reflexivity|]. split; [reflexivity|]. split; [reflexivity|].
  intros es s' Hrun.
  match type of Hrun with run _ _ ?s0 = _ =>
    assert (unreferenced 1%nat s0) as Hun;
    [ assert (calls s0 = [KCaller; KCaller]) as Hcalls by reflexivity;
      assert (requestListeners s0 = ∅) as Hl by reflexivity;
      assert (timers s0 = []) as Ht by reflexivity;
      unfold unreferenced; rewrite Hcalls, Hl, Ht | ] end.
  { split; [simpl; lia|]. split.
    - intros i l Hi. by rewrite lookup_empty in Hi.
    - intros t Hin. by apply not_elem_of_nil in Hin. }
  by destruct (run_unreferenced sample_types 1%nat es _ s' Hun Hrun) as [_ ->].
Qed.

(** Claim C1, on the code: the id of a request is the clock value at the
    call, so two calls in one millisecond share one entry of the pending
    table. With one response and both timers fired, the first call is
    never settled, in this or any later turn; and a call answered at once
    is settled a second time by its own timer when a later call in the
    same millisecond has taken its id. *)
Theorem same_tick_calls_break_exactly_once :
  let response :=
    Rpc {| result := {| type := "install"; body := OtherData [] |};
           id := Some 5 |} in
  (∃ s, run sample_types
          [ CallRawNodeMethod 5 "install" (OtherParams []);
            CallRawNodeMethod 5 "install" (OtherParams []);
            NodeMessage 5 response;
            TimerFires 0%nat; TimerFires 1%nat ]
          initial = Ok s ∧
        settle_count 0%nat s = 0%nat ∧ settle_count 1%nat s = 1%nat ∧
        timers s = [] ∧ requestListeners s = ∅ ∧
        ∀ es s', run sample_types es s = Ok s' → settle_count 0%nat s' = 0%nat) ∧
  (∃ s, run sample_types
          [ CallRawNodeMethod 5 "install" (OtherParams []);
            NodeMessage 5 response;
            CallRawNodeMethod 5 "install" (OtherParams []);
            TimerFires 0%nat ]
          initial = Ok s ∧
        settle_count 0%nat s = 2%nat ∧ settle_count 1%nat s = 0%nat ∧
        requestListeners s = ∅).
Proof.
  simpl. split.
  - eexists. split; [reflexivity|]. split; [reflexivity|].
    split; [reflexivity|]. split; [reflexivity|]. split; [reflexivity|].
    intros es s' Hrun.
    match type of Hrun with run _ _ ?s0 = _ =>
      assert (unreferenced 0%nat s0) as Hun;
      [ assert (calls s0 = [KCaller; KCaller]) as Hcalls by reflexivity;
        assert (requestListeners s0 = ∅) as Hl by reflexivity;
        assert (timers s0 = []) as Ht by reflexivity;
        unfold unreferenced; rewrite Hcalls, Hl, Ht | ] end.
    { split; [simpl; lia|]. split.
      - intros i l Hi. by rewrite lookup_empty in Hi.
      - intros t Hin. by apply not_elem_of_nil in Hin. }
    by destruct (run_unreferenced sample_types 0%nat es _ s' Hun Hrun) as [_ ->].
  - eexists. split; [reflexivity|]. split; [reflexivity|].
    split; reflexivity.
Qed.

End ProviderFacts.

(* ===================================================================== *)
(** ** Further theorems: the shape of the schedules *)
(* ===================================================================== *)

Module ScheduleFacts.
Import Instructions.

(** Property X1: every schedule, of either role and any protocol, ends
    with STATE_TRANSITION_COMMIT and commits nowhere else; it proposes the
    state transition once, generates the operation once, and the
    generation is the step right after the proposal. *)
Theorem schedules_propose_generate_and_commit_last (r : Role) (k : ProtocolKind) :
  last (schedule r k) = Some STATE_TRANSITION_COMMIT ∧
  length (filter (λ x, x = STATE_TRANSITION_COMMIT) (schedule r k)) = 1%nat ∧
  length (filter (λ x, x = STATE_TRANSITION_PROPOSE) (schedule r k)) = 1%nat ∧
  length (filter (λ x, x = OP_GENERATE) (schedule r k)) = 1%nat ∧
  ∀ i, schedule r k !! i = Some STATE_TRANSITION_PROPOSE →
       schedule r k !! S i = Some OP_GENERATE.
Proof.
  split_and!; try (destruct r, k; reflexivity).
  intros i. destruct r, k; simpl;
    do 12 (try (destruct i as [|i]; simpl; [intros; by simplify_eq|]));
    intros; simplify_eq.
Qed.

(** Property X2: in every schedule a message is sent right after it has
    been prepared and only then, and a wait comes only right after a send:
    IO_PREPARE_SEND is always followed by IO_SEND, IO_SEND is always
    preceded by IO_PREPARE_SEND, and IO_WAIT is always preceded by IO_SEND.
    Every schedule sends once, except the install schedule of the
    initiator, which sends twice. *)
Theorem sends_are_prepared_and_waits_follow_sends (r : Role) (k : ProtocolKind)
    (i : nat) :
  (schedule r k !! i = Some IO_PREPARE_SEND → schedule r k !! S i = Some IO_SEND) ∧
  (schedule r k !! i = Some IO_SEND →
     ∃ j, i = S j ∧ schedule r k !! j = Some IO_PREPARE_SEND) ∧
  (schedule r k !! i = Some IO_WAIT →
     ∃ j, i = S j ∧ schedule r k !! j = Some IO_SEND) ∧
  length (filter (λ x, x = IO_SEND) (schedule r k))
    = match r, k with Initiator, install => 2%nat | _, _ => 1%nat end.
Proof.
  split_and!; [| | |by destruct r, k]; destruct r, k; simpl;
    do 12 (try (destruct i as [|i]; simpl; [intros; simplify_eq; by eauto|]));
    intros; simplify_eq.
Qed.

(** Property X3: the install schedules are the schedules of the other
    protocols with the roles exchanged. The acknowledger of an install
    generates keys and then runs the initiator schedule of setup, update
    and uninstall; the initiator of an install generates keys, sends them
    and waits, and then runs the acknowledger schedule of those protocols. *)
Theorem install_exchanges_the_roles (k : ProtocolKind) :
  k ≠ install →
  AckInstructions install = KEY_GENERATE :: Instructions k ∧
  Instructions install =
    [KEY_GENERATE; IO_PREPARE_SEND; IO_SEND; IO_WAIT] ++ AckInstructions k.
Proof. intros Hk. by destruct k. Qed.

Lemma install_exchanges_the_roles_witness :
  setup ≠ install ∧
  AckInstructions install = KEY_GENERATE :: Instructions setup ∧
  Instructions install =
    [KEY_GENERATE; IO_PREPARE_SEND; IO_SEND; IO_WAIT] ++ AckInstructions setup.
Proof.
  split; [discriminate|]. apply (install_exchanges_the_roles setup). discriminate.
Defined.

(** Property X4: keys are generated in the install schedules only, once
    and as their first step; every other schedule starts with the proposal
    of the state transition. *)
Theorem keys_are_generated_first_and_for_install_only (r : Role)
    (k : ProtocolKind) :
  (KEY_GENERATE ∈ schedule r k ↔ k = install) ∧
  length (filter (λ x, x = KEY_GENERATE) (schedule r k))
    = (if decide (k = install) then 1 else 0)%nat ∧
  head (schedule r k)
    = Some (if decide (k = install) then KEY_GENERATE
            else STATE_TRANSITION_PROPOSE).
Proof.
  split_and!; [|by destruct r, k..].
  split.
  - intros Hin. destruct r, k; try done; exfalso; revert Hin; compute_done.
  - intros ->. destruct r; compute_done.
Qed.

(** Property X5: for setup, update and uninstall the two roles run the
    same steps, the acknowledger without the wait: the initiator schedule
    without IO_WAIT is a permutation of the acknowledger schedule, but not
    the same sequence; the two are the same sequence once the signing and
    validating steps are taken out as well, and those two steps come in
    the order OP_SIGN, OP_SIGN_VALIDATE for the initiator and in the order
    OP_SIGN_VALIDATE, OP_SIGN for the acknowledger. *)
Theorem roles_differ_in_wait_and_signing_order (k : ProtocolKind) :
  k ≠ install →
  filter (λ x, x ≠ IO_WAIT) (Instructions k) ≡ₚ AckInstructions k ∧
  filter (λ x, x ≠ IO_WAIT) (Instructions k) ≠ AckInstructions k ∧
  filter (λ x, x ≠ IO_WAIT ∧ x ≠ OP_SIGN ∧ x ≠ OP_SIGN_VALIDATE) (Instructions k)
    = filter (λ x, x ≠ OP_SIGN ∧ x ≠ OP_SIGN_VALIDATE) (AckInstructions k) ∧
  filter (λ x, x = OP_SIGN ∨ x = OP_SIGN_VALIDATE) (Instructions k)
    = [OP_SIGN; OP_SIGN_VALIDATE] ∧
  filter (λ x, x = OP_SIGN ∨ x = OP_SIGN_VALIDATE) (AckInstructions k)
    = [OP_SIGN_VALIDATE; OP_SIGN].
Proof. intros Hk. destruct k; try done; compute_done. Qed.

Lemma roles_differ_in_wait_and_signing_order_witness :
  uninstall ≠ install ∧
  filter (λ x, x ≠ IO_WAIT) (Instructions uninstall) ≡ₚ AckInstructions uninstall ∧
  filter (λ x, x ≠ IO_WAIT) (Instructions uninstall) ≠ AckInstructions uninstall.
Proof.
  split; [discriminate|].
  destruct (roles_differ_in_wait_and_signing_order uninstall) as (Hp & Hne & _);
    [discriminate|].
  split; [exact Hp|exact Hne].
Defined.

End ScheduleFacts.

(* ===================================================================== *)
(** ** Further theorems: calls, their responses and their timers *)
(* ===================================================================== *)

Module ProviderRunFacts.
Import Provider ProviderFacts ProviderTransport.

Section Calls.
Context (T : NodeTypes).

(** The timer of a call that has been answered finds the entry gone: it
    leaves the armed timers and nothing else changes. *)
Lemma fireTimer_answered (c : CallId) (rid : Z) (t : Timer) (s : State) :
  answered_armed c rid t s →
  ∃ j, timers s !! j = Some t ∧ fireTimer T c s = set_timers (delete j) s.
Proof.
  intros (_ & Hnone & _ & Harmed & _).
  destruct (armed_found c rid t s Harmed) as [j Hfind].
  exists j. unfold fireTimer. rewrite Hfind.
  apply list_find_Some in Hfind as (Hj & _). split; [done|].
  destruct Harmed as (_ & Htr & _).
  apply onTimeout_answered. simpl. by rewrite Htr.
Qed.

(** Property X6: the success path of a call. When the node answers a call
    in flight with a message of the call's id whose type is the method
    asked for, [resolve] is called with the payload of the message, the
    code awaiting the promise is handed that payload, the entry leaves the
    table and nothing is published; the timer stays armed, and when it
    fires later it settles nothing. *)
Theorem answered_call_resolves (now now' : Z) (method : string)
    (params : MethodParams) (k : Cont) (es : list Event) (s s2 : State)
    (response : JsonRpcResponse) :
  well_formed s → method ≠ "" →
  (∀ t, t ∈ timers s → t_requestId t ≠ now) →
  Forall (leaves_alone (length (calls s)) now) es →
  run T es (callRawNodeMethod T now method params k s) = Ok s2 →
  id response = Some now →
  type (result response) = method →
  method ≠ ErrorType_ERROR T →
  let c := length (calls s) in
  ∃ s3, step T (NodeMessage now' (Rpc response)) s2 = Ok s3 ∧
        settled s3 = settled s2 ++ [(c, Resolve (result response))] ∧
        jobs s3 = jobs s2 ++ [(k, VPayload (result response))] ∧
        requestListeners s3 = delete now (requestListeners s2) ∧
        emitted s3 = emitted s2 ∧ timers s3 = timers s2 ∧
        ∃ s4, step T (TimerFires c) s3 = Ok s4 ∧
              settled s4 = settled s3 ∧ jobs s4 = jobs s3 ∧
              emitted s4 = emitted s3 ∧
              requestListeners s4 = requestListeners s3.
Proof.
  intros Hwf Hm Hfresh Hes Hrun Hid Hty Herr. simpl.
  pose proof (callRawNodeMethod_in_flight T now method params k s Hwf Hm Hfresh)
    as Hin0.
  pose proof (run_in_flight T _ _ _ _ es _ s2 Hin0 Hes Hrun) as Hin.
  assert (calls s2 !! length (calls s) = Some k) as Hk
    by (eapply run_calls_lookup; [apply callRawNodeMethod_awaiter|exact Hrun]).
  exists (handleNodeMethodResponse T response now s2).
  split; [apply onNodeMessage_response; [done|congruence]|].
  assert (Hl := Hin). destruct Hl as (_ & _ & Hl & _ & _ & Hcount).
  destruct (listener_called_intro T
              {| l_methodName := method; l_requestId := now;
                 l_call := length (calls s) |} response now s2 Hl)
    as (Hcalled & Ht3 & Hc3).
  assert (answered_armed (length (calls s)) now
            {| t_delay := NODE_REQUEST_TIMEOUT; t_requestId := now;
               t_request := jsonRpcDeserialize params method now;
               t_call := length (calls s) |}
            (handleNodeMethodResponse T response now s2)) as Hans.
  { unfold handleNodeMethodResponse. rewrite Hl.
    eapply in_flight_answered; [exact Hin|exact Hcalled|exact Ht3|by rewrite Hc3]. }
  destruct (fireTimer_answered _ _ _ _ Hans) as (j & Hj & Hfire).
  revert Hans Hfire. unfold handleNodeMethodResponse. rewrite Hl.
  unfold listener. simpl.
  rewrite decide_False by congruence. rewrite decide_False by (intros H; by apply H).
  intros Hans Hfire.
  destruct (settle_fields (length (calls s)) (Resolve (result response)) s2)
    as (Hs3 & Hl3 & Ht3' & _ & _ & He3 & _).
  pose proof (settle_jobs (length (calls s)) (Resolve (result response)) s2 k Hk)
    as Hj3. rewrite decide_True in Hj3 by done.
  split_and!; [simpl; by rewrite ?Hs3, ?Hl3, ?Ht3', ?He3, ?Hj3..|].
  eexists. split; [reflexivity|]. by rewrite Hfire.
Qed.


(** Property X8: in a Provider state reached by the class itself (every
    listener, timer and logged settlement belongs to a call already made),
    for a call with a resolvable method name, made when no armed timer
    belongs to a request with its id, and followed only by turns that
    deliver no message with its id and issue no request under its id: when
    its timer fires the call is rejected, and a response with the call's id
    (not tagged as an error) delivered after that settles nothing; it finds
    no entry and is published as an orphaned_response error on the ERROR
    topic, and the call stays settled exactly once. *)
Theorem response_after_timeout_is_orphaned (now now' : Z) (method : string)
    (params : MethodParams) (k : Cont) (es : list Event) (s s2 : State)
    (response : JsonRpcResponse) :
  well_formed s → method ≠ "" →
  (∀ t, t ∈ timers s → t_requestId t ≠ now) →
  Forall (leaves_alone (length (calls s)) now) es →
  run T es (callRawNodeMethod T now method params k s) = Ok s2 →
  id response = Some now →
  type (result response) ≠ ErrorType_ERROR T →
  let c := length (calls s) in
  ∃ s3 s4, step T (TimerFires c) s2 = Ok s3 ∧
           step T (NodeMessage now' (Rpc response)) s3 = Ok s4 ∧
           emitted s4 =
             emitted s3 ++
             [(EventType_ERROR T,
               {| type := EventType_ERROR T;
                  body := ErrorData "orphaned_response"
                            (Some ("Response has no corresponding inflight request: "
                                   +:+ JSON_stringify_response T response)) |})] ∧
           settled s4 = settled s3 ∧
           settle_count c s4 = 1%nat.
Proof. apply late_response_is_orphaned. Qed.

(** *** The pending table and the timers *)

Lemma elem_of_delete_other {A} (l : list A) (j : nat) (x y : A) :
  l !! j = Some x → y ∈ l → y ≠ x → y ∈ delete j l.
Proof.
  intros Hj Hin Hne. rewrite delete_take_drop.
  rewrite <- (take_drop_middle l j x Hj) in Hin.
  apply elem_of_app in Hin as [Hin|Hin]; [apply elem_of_app; by left|].
  apply elem_of_cons in Hin as [->|Hin]; [done|].
  apply elem_of_app. by right.
Qed.

Lemma timers_cover_effect (eff : Effect) (s s' : State) :
  (∀ i l, requestListeners s !! i = Some l →
          ∃ t, t ∈ timers s ∧ t_requestId t = i) →
  effect eff s s' →
  ∀ i l, requestListeners s' !! i = Some l →
         ∃ t, t ∈ timers s' ∧ t_requestId t = i.
Proof.
  intros Hcov Heff.
  assert (∀ i0, listener_called i0 s s' → timers s' = timers s →
            ∀ i l, requestListeners s' !! i = Some l →
                   ∃ t, t ∈ timers s' ∧ t_requestId t = i) as Hcalled.
  { intros i0 (l0 & v & _ & Hl' & _) Ht' i l Hi. rewrite Hl' in Hi.
    apply lookup_delete_Some in Hi as [_ Hi]. rewrite Ht'. eauto. }
  destruct eff as [|i0|c|now|now]; simpl in Heff.
  - destruct Heff as ((Hl' & _) & Ht' & _). rewrite Hl', Ht'. exact Hcov.
  - destruct Heff as (Hcall & Ht' & _). eauto.
  - destruct Heff as (j & t & Hj & _ & _ & Ht' & _ & Hcase).
    assert (∀ i l, requestListeners s' !! i = Some l →
              requestListeners s !! i = Some l ∧ i ≠ t_requestId t) as Hsub.
    { destruct Hcase as [(Hnone & Hl' & _)|(l0 & v & _ & Hl' & _)];
        rewrite Hl'; intros i l Hi.
      - split; [done|]. intros ->. congruence.
      - apply lookup_delete_Some in Hi as [? ?]. done. }
    intros i l Hi. destruct (Hsub i l Hi) as [Hold Hne].
    destruct (Hcov i l Hold) as (t' & Hin & Hrid).
    exists t'. split; [|done]. rewrite Ht'.
    apply (elem_of_delete_other _ j t); [done|done|]. intros ->. done.
  - destruct Heff as (m & t & k & _ & _ & _ & Htr & Hl' & Ht' & _).
    rewrite Hl', Ht'. intros i l Hi.
    apply lookup_insert_Some in Hi as [[<- _]|[_ Hi]].
    + exists t. split; [apply elem_of_app; right; by left|done].
    + destruct (Hcov i l Hi) as (t' & Hin & Hrid).
      exists t'. split; [apply elem_of_app; by left|done].
  - destruct Heff as (Hcase & Ht' & _).
    destruct Hcase as [(Hl' & _)|Hcall]; [|eauto].
    rewrite Hl', Ht'. exact Hcov.
Qed.

(** Property X9: the pending table does not leak. In every state a
    Provider can reach, each pending entry has an armed timer for its id,
    so once all timers have fired the table is empty. *)
Theorem pending_entries_have_armed_timers (es : list Event) (s : State) :
  run T es initial = Ok s →
  (∀ i l, requestListeners s !! i = Some l →
          ∃ t, t ∈ timers s ∧ t_requestId t = i) ∧
  (timers s = [] → requestListeners s = ∅).
Proof.
  intros Hrun.
  assert (∀ i l, requestListeners s !! i = Some l →
                 ∃ t, t ∈ timers s ∧ t_requestId t = i) as Hcov.
  { revert Hrun.
    assert (∀ i l, requestListeners initial !! i = Some l →
                   ∃ t, t ∈ timers initial ∧ t_requestId t = i) as Hinit
      by (intros i l Hi; simpl in Hi; by rewrite lookup_empty in Hi).
    revert Hinit. generalize initial as s0. revert s.
    induction es as [|e es IH]; intros s s0 Hcov; simpl.
    - by intros [= <-].
    - destruct (step T e s0) as [s1| |] eqn:Hstep; try discriminate.
      destruct (step_effect T e s0 s1 Hstep) as (eff & _ & Heff).
      apply IH. by eapply timers_cover_effect. }
  split; [done|]. intros Hnil. apply map_empty. intros i.
  destruct (requestListeners s !! i) as [l|] eqn:Hi; [|done].
  destruct (Hcov i l Hi) as (t & Hin & _). rewrite Hnil in Hin.
  by apply not_elem_of_nil in Hin.
Qed.

(** *** What is sent *)

Lemma listener_fields (l : Listener) (response : JsonRpcResponse) (s : State) :
  sent (listener T l response s) = sent s ∧
  requestListeners (listener T l response s) = requestListeners s ∧
  timers (listener T l response s) = timers s ∧
  appInstances (listener T l response s) = appInstances s ∧
  emitted (listener T l response s) = emitted s ∧
  calls (listener T l response s) = calls s.
Proof.
  destruct (listener_settles T l response s) as [v ->].
  by destruct (settle_fields (l_call l) v s) as (_ & -> & -> & -> & -> & -> & ->).
Qed.

Lemma sends_nothing_refl (s : State) : sends_nothing s s.
Proof. by split_and!. Qed.

Lemma sends_nothing_answer (l : Listener) (response : JsonRpcResponse) (i : Z)
    (s : State) :
  sends_nothing s (set_requestListeners (delete i) (listener T l response s)).
Proof.
  destruct (listener_fields l response s) as (Hs & Hl & Ht & _).
  split_and!; simpl; rewrite ?Hs, ?Hl, ?Ht; try done.
  intros i' l' Hi. by apply lookup_delete_Some in Hi as [_ ?].
Qed.

Lemma sends_nothing_emit (topic : string) (p : Payload) (s s1 : State) :
  sends_nothing s s1 → sends_nothing s (emit topic p s1).
Proof. by intros (? & ? & ?). Qed.

Lemma handleNodeError_sends_nothing (error : JsonRpcResponse) (s : State) :
  sends_nothing s (handleNodeError T error s).
Proof.
  unfold handleNodeError. apply sends_nothing_emit.
  destruct (id error) as [i|]; [|apply sends_nothing_refl].
  destruct (decide (i ≠ 0)); [|apply sends_nothing_refl].
  destruct (requestListeners s !! i) as [l|]; [|apply sends_nothing_refl].
  apply (sends_nothing_answer l error i s).
Qed.

Lemma handleNodeMethodResponse_sends_nothing (response : JsonRpcResponse)
    (i : Z) (s : State) :
  sends_nothing s (handleNodeMethodResponse T response i s).
Proof.
  unfold handleNodeMethodResponse.
  destruct (requestListeners s !! i) as [l|].
  - apply sends_nothing_answer.
  - apply sends_nothing_emit, sends_nothing_refl.
Qed.

Lemma callRawNodeMethod_transport (now : Z) (method : string)
    (params : MethodParams) (k : Cont) (s : State) :
  sends_nothing s (callRawNodeMethod T now method params k s) ∨
  sends_request now method params (length (calls s)) s
    (callRawNodeMethod T now method params k s).
Proof.
  destruct (decide (method = "")) as [->|Hm].
  - left. destruct (callRawNodeMethod_malformed T now params k s) as (-> & _).
    apply (handleNodeError_sends_nothing _ (set_calls (λ l, l ++ [k]) s)).
  - right. destruct (callRawNodeMethod_issues T now method params k s Hm)
      as (Hl & Ht & Hs & _).
    by split_and!.
Qed.

Lemma getOrCreateAppInstance_transport (now : Z) (appInstanceId : string)
    (hint : option AppInstanceInfo) (k : Cont) (s : State) :
  let s' := getOrCreateAppInstance T now appInstanceId hint k s in
  sends_nothing s s' ∨
  ∃ method params, sends_request now method params (length (calls s)) s s'.
Proof.
  simpl. unfold getOrCreateAppInstance.
  destruct (appInstances s !! appInstanceId); [left; by split_and!|].
  case_decide; [left; by split_and!|].
  destruct hint; [left; by split_and!|].
  destruct (callRawNodeMethod_transport now
              (RpcMethodName_GET_APP_INSTANCE_DETAILS T)
              (AppInstanceIdParams appInstanceId)
              (KFetched appInstanceId k) s); eauto.
Qed.

Lemma fireTimer_sends_nothing (c : CallId) (s : State) :
  sends_nothing s (fireTimer T c s).
Proof.
  unfold fireTimer.
  destruct (list_find _ (timers s)) as [[j t]|]; [|apply sends_nothing_refl].
  unfold onTimeout. simpl.
  destruct (requestListeners s !! t_requestId t) as [l|].
  - match goal with |- context [settle ?c0 ?v ?s0] =>
      destruct (settle_fields c0 v s0) as (_ & Hl & Ht & _ & _ & _ & Hs) end.
    split_and!; simpl; rewrite ?Hl, ?Ht, ?Hs; simpl; try done.
    + intros i l' Hi. by apply lookup_delete_Some in Hi as [_ ?].
    + intros t'. apply list_elem_of_delete_inv.
  - split_and!; simpl; try done. intros t'. apply list_elem_of_delete_inv.
Qed.

Lemma runNextJob_sends_nothing (s : State) : sends_nothing s (runNextJob s).
Proof.
  unfold runNextJob. destruct (jobs s) as [|[k v] rest];
    [apply sends_nothing_refl|].
  destruct k, v; simpl; try apply sends_nothing_refl;
    try (destruct (body p)); by split_and!.
Qed.

(** The handler a turn runs. *)
Lemma step_cases (e : Event) (s s' : State) :
  step T e s = Ok s' →
  (∃ now method params k, s' = callRawNodeMethod T now method params k s) ∨
  (∃ now appInstanceId hint k,
     s' = getOrCreateAppInstance T now appInstanceId hint k s) ∨
  (∃ m, s' = handleNodeError T m s) ∨
  (∃ m i, s' = handleNodeMethodResponse T m i s) ∨
  (∃ p, s' = handleGenericEvent p s) ∨
  (∃ c, s' = fireTimer T c s) ∨
  (e = RunJob ∧ s' = runNextJob s).
Proof.
  destruct e as [now method params|now appInstanceId hint|now message|c|];
    simpl.
  - intros [= <-]. left. eauto.
  - intros [= <-]. right. left. eauto.
  - unfold onNodeMessage. case_decide.
    + destruct message; [|discriminate]. intros [= <-]. do 2 right. left. eauto.
    + assert (∀ ev, handleNodeEvent T now ev s = Ok s' →
                (∃ now appInstanceId hint k,
                   s' = getOrCreateAppInstance T now appInstanceId hint k s) ∨
                (∃ p, s' = handleGenericEvent p s)) as Hev.
      { intros ev. unfold handleNodeEvent, handleRejectInstallEvent,
          handleInstallEvent, handleInstallVirtualEvent.
        repeat case_decide; repeat case_match; try discriminate;
          intros [= <-]; eauto 8. }
      destruct message as [m|ev].
      * destruct (id m).
        -- intros [= <-]. do 3 right. left. eauto.
        -- intros [?|?]%Hev; eauto 10.
      * intros [?|?]%Hev; eauto 10.
  - intros [= <-]. do 5 right. left. eauto.
  - intros [= <-]. by do 6 right.
Qed.

(** A turn sends nothing, or it sends the one request of a new call. *)
Lemma step_transport (e : Event) (s s' : State) :
  step T e s = Ok s' →
  sends_nothing s s' ∨
  ∃ now method params, sends_request now method params (length (calls s)) s s'.
Proof.
  intros [(now & method & params & k & ->)|[(now & a & hint & k & ->)|
    [(m & ->)|[(m & i & ->)|[(p & ->)|[(c & ->)|[_ ->]]]]]]]%step_cases.
  - destruct (callRawNodeMethod_transport now method params k s); eauto.
  - destruct (getOrCreateAppInstance_transport now a hint k s)
      as [?|(? & ? & ?)]; eauto.
  - left. apply handleNodeError_sends_nothing.
  - left. apply handleNodeMethodResponse_sends_nothing.
  - left. by split_and!.
  - left. apply fireTimer_sends_nothing.
  - left. apply runNextJob_sends_nothing.
Qed.

Lemma transport_ok_step (e : Event) (s s' : State) :
  transport_ok s → step T e s = Ok s' → transport_ok s'.
Proof.
  intros (Hsent & Hpend & Htim) Hstep.
  destruct (step_transport e s s' Hstep)
    as [(Hs & Hl & Ht)|(now & method & params & Hm & Hs & Hl & Ht)];
    unfold transport_ok; rewrite Hs.
  - split_and!; [done|eauto|eauto].
  - split_and!.
    + intros r [Hin | ->%list_elem_of_singleton]%elem_of_app; [eauto|done].
    + intros i l. rewrite Hl.
      intros [[<- <-]|[_ Hi]]%lookup_insert_Some; simpl.
      * split; [done|]. eexists. split; [apply elem_of_app; right; by left|done].
      * destruct (Hpend i l Hi) as (? & r & ? & ? & ?). split; [done|].
        exists r. split; [apply elem_of_app; by left|done].
    + intros t. rewrite Ht.
      intros [Hin | ->%list_elem_of_singleton]%elem_of_app; simpl.
      * destruct (Htim t Hin) as (? & ? & ?).
        split_and!; [done|apply elem_of_app; by left|done].
      * split_and!; [done|apply elem_of_app; right; by left|done].
Qed.

(** Property X10: the Provider awaits only what it has sent. In every
    state it can reach, no request without a method name has been sent;
    every pending entry sits under its own request id, and a request with
    that id and the entry's method has been sent; every armed timer has
    the delay 30000 and holds a request that was sent under the timer's
    id. *)
Theorem pending_requests_were_sent (es : list Event) (s : State) :
  run T es initial = Ok s →
  (∀ r, r ∈ sent s → methodName r ≠ "") ∧
  (∀ i l, requestListeners s !! i = Some l →
          l_requestId l = i ∧
          ∃ r, r ∈ sent s ∧ request_id r = i ∧ methodName r = l_methodName l) ∧
  (∀ t, t ∈ timers s →
        t_delay t = 30000 ∧ t_request t ∈ sent s ∧
        request_id (t_request t) = t_requestId t).
Proof.
  assert (transport_ok initial) as Hinit.
  { split_and!; simpl.
    - intros r Hin. by apply not_elem_of_nil in Hin.
    - intros i l Hi. by rewrite lookup_empty in Hi.
    - intros t Hin. by apply not_elem_of_nil in Hin. }
  revert Hinit. generalize initial as s0. revert s.
  induction es as [|e es IH]; intros s s0 Hok; simpl.
  - by intros [= <-].
  - destruct (step T e s0) as [s1| |] eqn:Hstep; try discriminate.
    apply IH. by eapply transport_ok_step.
Qed.

(** *** The registry of app instances *)

Lemma handleNodeError_registry (error : JsonRpcResponse) (s : State) :
  appInstances (handleNodeError T error s) = appInstances s.
Proof.
  unfold handleNodeError. simpl.
  destruct (id error) as [i|]; [|done].
  destruct (decide (i ≠ 0)); [|done].
  destruct (requestListeners s !! i) as [l|]; [|done]. simpl.
  by destruct (listener_fields l error s) as (_ & _ & _ & -> & _).
Qed.

Lemma handleNodeMethodResponse_registry (response : JsonRpcResponse) (i : Z)
    (s : State) :
  appInstances (handleNodeMethodResponse T response i s) = appInstances s.
Proof.
  unfold handleNodeMethodResponse.
  destruct (requestListeners s !! i) as [l|]; [|done]. simpl.
  by destruct (listener_fields l response s) as (_ & _ & _ & -> & _).
Qed.

Lemma callRawNodeMethod_registry (now : Z) (method : string)
    (params : MethodParams) (k : Cont) (s : State) :
  appInstances (callRawNodeMethod T now method params k s) = appInstances s.
Proof.
  destruct (decide (method = "")) as [->|Hm].
  - destruct (callRawNodeMethod_malformed T now params k s) as (-> & _).
    by rewrite handleNodeError_registry.
  - by destruct (callRawNodeMethod_issues T now method params k s Hm)
      as (_ & _ & _ & _ & _ & _ & _ & ->).
Qed.

Lemma fireTimer_fields (c : CallId) (s : State) :
  appInstances (fireTimer T c s) = appInstances s ∧
  emitted (fireTimer T c s) = emitted s ∧
  sent (fireTimer T c s) = sent s.
Proof.
  unfold fireTimer.
  destruct (list_find _ (timers s)) as [[j t]|]; [|done].
  unfold onTimeout. simpl.
  destruct (requestListeners s !! t_requestId t) as [l|]; [|done].
  match goal with |- context [settle ?c0 ?v ?s0] =>
    destruct (settle_fields c0 v s0) as (_ & _ & _ & _ & Ha & He & Hs) end.
  simpl. by rewrite Ha, He, Hs.
Qed.

(** The registry is written in two places: [getOrCreateAppInstance] stores
    the record made from the hint under an id that has none, and the code
    after its [await] stores the record fetched. *)
Lemma getOrCreateAppInstance_stores (now : Z) (appInstanceId : string)
    (hint : option AppInstanceInfo) (k : Cont) (s : State) :
  let s' := getOrCreateAppInstance T now appInstanceId hint k s in
  appInstances s' = appInstances s ∨
  (appInstances s !! appInstanceId = None ∧
   ∃ info, hint = Some info ∧
           appInstances s' =
             <[appInstanceId := new_AppInstance info]> (appInstances s)).
Proof.
  simpl. unfold getOrCreateAppInstance.
  destruct (appInstances s !! appInstanceId) eqn:Ha; [by left|].
  case_decide; [by left|].
  destruct hint as [info|]; [right; eauto|].
  left. apply callRawNodeMethod_registry.
Qed.

Lemma runNextJob_registry (s : State) :
  appInstances (runNextJob s) = appInstances s ∨
  ∃ appInstanceId k p rest info,
    jobs s = (KFetched appInstanceId k, VPayload p) :: rest ∧
    body p = GetAppInstanceDetailsResult info ∧
    appInstances (runNextJob s) =
      <[appInstanceId := new_AppInstance info]> (appInstances s).
Proof.
  unfold runNextJob. destruct (jobs s) as [|[k v] rest] eqn:Hj; [by left|].
  destruct k as [|topic|appInstanceId k], v as [p|a|name|e]; simpl;
    try by left.
  destruct (body p) eqn:Hb; simpl; try by left.
  right. by eexists _, _, _, _, _.
Qed.

(** A record in the registry is replaced only by the code that completes
    a fetch for its id; no turn removes it. *)
Lemma step_registry (e : Event) (s s' : State) (appInstanceId : string)
    (a : AppInstance) :
  step T e s = Ok s' → appInstances s !! appInstanceId = Some a →
  appInstances s' !! appInstanceId = Some a ∨
  (e = RunJob ∧
   ∃ k p rest info,
     jobs s = (KFetched appInstanceId k, VPayload p) :: rest ∧
     body p = GetAppInstanceDetailsResult info ∧
     appInstances s' !! appInstanceId = Some (new_AppInstance info)).
Proof.
  intros [(now & method & params & k & ->)|[(now & a' & hint & k & ->)|
    [(m & ->)|[(m & i & ->)|[(p & ->)|[(c & ->)|[-> ->]]]]]]]%step_cases Ha.
  - left. by rewrite callRawNodeMethod_registry.
  - left.
    destruct (getOrCreateAppInstance_stores now a' hint k s)
      as [->|(Hnone & info & _ & ->)]; [done|].
    rewrite lookup_insert_ne; [done|]. intros ->. congruence.
  - left. by rewrite handleNodeError_registry.
  - left. by rewrite handleNodeMethodResponse_registry.
  - by left.
  - left. by destruct (fireTimer_fields c s) as (-> & _).
  - destruct (runNextJob_registry s)
      as [->|(a' & k & p & rest & info & Hj & Hb & ->)]; [by left|].
    destruct (decide (a' = appInstanceId)) as [->|Hne].
    + right. split; [done|]. eexists _, _, _, _. split_and!; [done..|].
      by rewrite lookup_insert_eq.
    + left. by rewrite lookup_insert_ne.
Qed.

(** Property X11: a record in the registry is replaced only by the code
    that completes a fetch for its own id. Whatever turn the Provider
    takes, a record cached under an id is still the record under that id
    afterwards, unless the turn is the continuation of a fetch for that id
    receiving the node's result, which stores the record made from that
    result. In particular a lookup with a hint and a rejected-install
    event never replace a cached record. *)
Theorem cached_record_is_replaced_only_by_its_fetch (e : Event) (s s' : State)
    (appInstanceId : string) (a : AppInstance) :
  step T e s = Ok s' → appInstances s !! appInstanceId = Some a →
  appInstances s' !! appInstanceId = Some a ∨
  (e = RunJob ∧
   ∃ k p rest info,
     jobs s = (KFetched appInstanceId k, VPayload p) :: rest ∧
     body p = GetAppInstanceDetailsResult info ∧
     appInstances s' !! appInstanceId = Some (new_AppInstance info)).
Proof. apply step_registry. Qed.

(** Property X12: the registry never forgets. Once an id has a record,
    it has one after any sequence of calls, messages, timers and
    continuations; and without a continuation run in between it is the
    same record. *)
Theorem registry_never_forgets (es : list Event) (s s' : State)
    (appInstanceId : string) (a : AppInstance) :
  run T es s = Ok s' → appInstances s !! appInstanceId = Some a →
  is_Some (appInstances s' !! appInstanceId) ∧
  (RunJob ∉ es → appInstances s' !! appInstanceId = Some a).
Proof.
  revert s a. induction es as [|e es IH]; intros s a; simpl.
  - intros [= <-] Ha. by rewrite Ha.
  - destruct (step T e s) as [s1| |] eqn:Hstep; try discriminate.
    intros Hrun Ha.
    destruct (step_registry e s s1 appInstanceId a Hstep Ha)
      as [Ha1|(-> & k & p & rest & info & _ & _ & Ha1)].
    + destruct (IH s1 a Hrun Ha1) as [Hsome Hsame]. split; [done|].
      intros Hnot. apply Hsame. intros Hin. apply Hnot. by right.
    + destruct (IH s1 _ Hrun Ha1) as [Hsome _]. split; [done|].
      intros Hnot. exfalso. apply Hnot. by left.
Qed.

(** *** What is published *)

Lemma handleNodeError_emitted (error : JsonRpcResponse) (s : State) :
  emitted (handleNodeError T error s) =
    emitted s ++ [(type (result error), result error)].
Proof.
  unfold handleNodeError. simpl.
  destruct (id error) as [i|]; [|done].
  destruct (decide (i ≠ 0)); [|done].
  destruct (requestListeners s !! i) as [l|]; [|done]. simpl.
  by destruct (listener_fields l error s) as (_ & _ & _ & _ & -> & _).
Qed.

(** A turn publishes at most one event, under the event's own type. *)
Lemma step_emitted (e : Event) (s s' : State) :
  step T e s = Ok s' →
  emitted s' = emitted s ∨ ∃ p, emitted s' = emitted s ++ [(type p, p)].
Proof.
  assert (∀ now method params k,
            let s' := callRawNodeMethod T now method params k s in
            emitted s' = emitted s ∨
            ∃ p, emitted s' = emitted s ++ [(type p, p)]) as Hcall.
  { intros now method params k. simpl.
    destruct (decide (method = "")) as [->|Hm].
    - right. destruct (callRawNodeMethod_malformed T now params k s) as (-> & _).
      rewrite handleNodeError_emitted. by eexists.
    - left. by destruct (callRawNodeMethod_issues T now method params k s Hm)
        as (_ & _ & _ & _ & _ & _ & -> & _). }
  intros [(now & method & params & k & ->)|[(now & a' & hint & k & ->)|
    [(m & ->)|[(m & i & ->)|[(p & ->)|[(c & ->)|[-> ->]]]]]]]%step_cases.
  - apply Hcall.
  - unfold getOrCreateAppInstance.
    destruct (appInstances s !! a'); [by left|].
    case_decide; [by left|].
    destruct hint; [by left|]. apply Hcall.
  - right. rewrite handleNodeError_emitted. by eexists.
  - unfold handleNodeMethodResponse.
    destruct (requestListeners s !! i) as [l|]; simpl.
    + left. by destruct (listener_fields l m s) as (_ & _ & _ & _ & -> & _).
    + right. by eexists {| type := _; body := _ |}.
  - right. by eexists.
  - left. by destruct (fireTimer_fields c s) as (_ & -> & _).
  - unfold runNextJob. destruct (jobs s) as [|[k v] rest]; [by left|].
    destruct k as [|topic|a' k], v as [p|a|name|e']; simpl; try (by left).
    + right. by eexists {| type := _; body := _ |}.
    + right. by eexists {| type := _; body := _ |}.
    + destruct (body p); by left.
Qed.

(** Property X13: every event the Provider publishes is published under
    the event's own type, and a turn publishes at most one event: after
    any run from the initial state, each published pair is a payload with
    its [type] as topic, and there are no more of them than turns taken. *)
Theorem events_are_published_under_their_type (es : list Event) (s : State) :
  run T es initial = Ok s →
  (∀ topic p, (topic, p) ∈ emitted s → topic = type p) ∧
  (length (emitted s) ≤ length es)%nat.
Proof.
  assert (∀ s0 n, run T es s0 = Ok s →
            (∀ topic p, (topic, p) ∈ emitted s0 → topic = type p) →
            (length (emitted s0) ≤ n)%nat →
            (∀ topic p, (topic, p) ∈ emitted s → topic = type p) ∧
            (length (emitted s) ≤ n + length es)%nat) as Hgen.
  { induction es as [|e es IH]; intros s0 n; simpl.
    - intros [= <-] Hty Hlen. split; [done|lia].
    - destruct (step T e s0) as [s1| |] eqn:Hstep; try discriminate.
      intros Hrun Hty Hlen.
      replace (n + S (length es))%nat with (S n + length es)%nat by lia.
      apply (IH s1 (S n) Hrun);
        destruct (step_emitted e s0 s1 Hstep) as [->|[p ->]]; try done.
      + intros topic p' [Hin|[= -> ->]%list_elem_of_singleton]%elem_of_app;
          [by apply Hty|done].
      + lia.
      + rewrite length_app. simpl. lia. }
  intros Hrun. apply (Hgen initial 0%nat Hrun); simpl; [|lia].
  intros topic p Hin. by apply not_elem_of_nil in Hin.
Qed.

(** *** Fetching the details of an app instance *)

Lemma run_cons (e : Event) (es : list Event) (s s1 : State) :
  step T e s = Ok s1 → run T (e :: es) s = run T es s1.
Proof. intros Hstep. simpl run. by rewrite Hstep. Qed.

Lemma settle_delivered (c : CallId) (v : Settlement) (s : State) :
  delivered (settle c v s) = delivered s.
Proof. unfold settle. repeat case_match; done. Qed.

(** The response to a call in flight, of the type the call asked for,
    hands its payload to the code awaiting the call and changes nothing
    else a subscriber or the node could see. *)
Lemma response_resolves (c : CallId) (rid : Z) (l : Listener) (t : Timer)
    (k : Cont) (now' : Z) (response : JsonRpcResponse) (s : State) :
  in_flight c rid l t s → calls s !! c = Some k →
  id response = Some rid →
  type (result response) = l_methodName l →
  l_methodName l ≠ ErrorType_ERROR T →
  let s' := handleNodeMethodResponse T response rid s in
  step T (NodeMessage now' (Rpc response)) s = Ok s' ∧
  jobs s' = jobs s ++ [(k, VPayload (result response))] ∧
  appInstances s' = appInstances s ∧ emitted s' = emitted s ∧
  sent s' = sent s ∧ delivered s' = delivered s.
Proof.
  intros (_ & Hlc & Hl & _ & _ & Hcount) Hk Hid Hty Herr. simpl.
  split; [apply onNodeMessage_response; [done|congruence]|].
  unfold handleNodeMethodResponse. rewrite Hl. unfold listener. simpl.
  rewrite decide_False by congruence.
  rewrite decide_False by (intros H; by apply H).
  rewrite Hlc.
  destruct (settle_fields c (Resolve (result response)) s)
    as (_ & _ & _ & _ & Ha & He & Hs).
  pose proof (settle_jobs c (Resolve (result response)) s k Hk) as Hj.
  rewrite decide_True in Hj by done.
  by rewrite Hj, Ha, He, Hs, settle_delivered.
Qed.

(** A lookup that misses and has no hint asks the node; when the node
    answers, the continuation of the lookup stores the record made from
    the answer under the id asked for, and returns it to [k]. *)
Lemma fetch_completes (now now' : Z) (appInstanceId : string) (k : Cont)
    (es : list Event) (s s2 : State) (response : JsonRpcResponse)
    (info : AppInstanceInfo) :
  well_formed s → appInstances s !! appInstanceId = None →
  appInstanceId ∉ Object_prototype_names →
  RpcMethodName_GET_APP_INSTANCE_DETAILS T ≠ "" →
  RpcMethodName_GET_APP_INSTANCE_DETAILS T ≠ ErrorType_ERROR T →
  (∀ t, t ∈ timers s → t_requestId t ≠ now) →
  Forall (leaves_alone (length (calls s)) now) es →
  run T es (getOrCreateAppInstance T now appInstanceId None k s) = Ok s2 →
  jobs s2 = [] →
  id response = Some now →
  type (result response) = RpcMethodName_GET_APP_INSTANCE_DETAILS T →
  body (result response) = GetAppInstanceDetailsResult info →
  sent (getOrCreateAppInstance T now appInstanceId None k s) =
    sent s ++ [jsonRpcDeserialize (AppInstanceIdParams appInstanceId)
                 (RpcMethodName_GET_APP_INSTANCE_DETAILS T) now] ∧
  ∃ s4, run T [NodeMessage now' (Rpc response); RunJob] s2 = Ok s4 ∧
        appInstances s4 =
          <[appInstanceId := new_AppInstance info]> (appInstances s2) ∧
        jobs s4 = [(k, VAppInstance (new_AppInstance info))] ∧
        emitted s4 = emitted s2 ∧ sent s4 = sent s2 ∧
        delivered s4 = delivered s2.
Proof.
  intros Hwf Hnone Hown Hm Herr Hfresh Hes Hrun Hjobs Hid Hty Hbody.
  unfold getOrCreateAppInstance in *. rewrite Hnone in *.
  rewrite decide_False in * by done.
  split.
  { by destruct (callRawNodeMethod_issues T now _
                   (AppInstanceIdParams appInstanceId)
                   (KFetched appInstanceId k) s Hm) as (_ & _ & -> & _). }
  pose proof (callRawNodeMethod_in_flight T now _
                (AppInstanceIdParams appInstanceId) (KFetched appInstanceId k)
                s Hwf Hm Hfresh) as Hin0.
  pose proof (run_in_flight T _ _ _ _ es _ s2 Hin0 Hes Hrun) as Hin.
  assert (calls s2 !! length (calls s) = Some (KFetched appInstanceId k)) as Hk
    by (eapply run_calls_lookup; [apply callRawNodeMethod_awaiter|exact Hrun]).
  destruct (response_resolves _ _ _ _ _ now' response s2 Hin Hk Hid Hty Herr)
    as (Hstep & Hj & Ha & He & Hs & Hd).
  eexists. split; [rewrite (run_cons _ _ _ _ Hstep); reflexivity|].
  unfold runNextJob. rewrite Hj, Hjobs. simpl. rewrite Hbody. simpl.
  by rewrite Ha, He, Hs, Hd.
Qed.

(** The lookup of a caller: fetched, stored and returned. *)
Lemma fetch_delivers (now now' : Z)
    (appInstanceId : string) (es : list Event) (s s2 : State)
    (response : JsonRpcResponse) (info : AppInstanceInfo) :
  well_formed s → appInstances s !! appInstanceId = None →
  appInstanceId ∉ Object_prototype_names →
  RpcMethodName_GET_APP_INSTANCE_DETAILS T ≠ "" →
  RpcMethodName_GET_APP_INSTANCE_DETAILS T ≠ ErrorType_ERROR T →
  (∀ t, t ∈ timers s → t_requestId t ≠ now) →
  Forall (leaves_alone (length (calls s)) now) es →
  run T (GetOrCreateAppInstance now appInstanceId None :: es) s = Ok s2 →
  jobs s2 = [] →
  id response = Some now →
  type (result response) = RpcMethodName_GET_APP_INSTANCE_DETAILS T →
  body (result response) = GetAppInstanceDetailsResult info →
  sent (getOrCreateAppInstance T now appInstanceId None KCaller s) =
    sent s ++ [jsonRpcDeserialize (AppInstanceIdParams appInstanceId)
                 (RpcMethodName_GET_APP_INSTANCE_DETAILS T) now] ∧
  ∃ s5, run T [NodeMessage now' (Rpc response); RunJob; RunJob] s2 = Ok s5 ∧
        appInstances s5 =
          <[appInstanceId := new_AppInstance info]> (appInstances s2) ∧
        delivered s5 = delivered s2 ++ [VAppInstance (new_AppInstance info)] ∧
        emitted s5 = emitted s2 ∧ sent s5 = sent s2 ∧ jobs s5 = [].
Proof.
  intros Hwf Hnone Hown Hm Herr Hfresh Hes Hrun Hjobs Hid Hty Hbody.
  change (run T es (getOrCreateAppInstance T now appInstanceId None KCaller s)
          = Ok s2) in Hrun.
  destruct (fetch_completes now now' appInstanceId KCaller es s s2 response info
              Hwf Hnone Hown Hm Herr Hfresh Hes Hrun Hjobs Hid Hty Hbody)
    as (Hsent & s4 & Hrun4 & Ha & Hj & He & Hs & Hd).
  split; [done|].
  exists (runNextJob s4). split.
  { revert Hrun4. simpl run.
    destruct (onNodeMessage T now' (Rpc response) s2); try discriminate.
    by intros [= ->]. }
  unfold runNextJob. rewrite Hj. simpl.
  by rewrite Ha, He, Hs, Hd.
Qed.


(** Property X14: a lookup that misses fetches and caches
    (GET_APP_INSTANCE_DETAILS being a non-empty method name other than the
    error tag). In a Provider state reached by the class itself (every
    listener, timer and logged settlement belongs to a call already made),
    getOrCreateAppInstance without hint, for an id that has no record and is
    not the name of a member the registry object inherits from
    Object.prototype, sends one GET_APP_INSTANCE_DETAILS request with params
    {appInstanceId: id}. If the id of that request is shared with no other
    request (no armed timer belongs to a request with it, no later turn
    issues one under it), no message with that id is delivered and its timer
    does not fire before the node answers, and no continuation is waiting
    when the node answers with a result of that method and id: the record
    made from result.appInstance is stored under the id asked for (whatever
    identityHash the answer carries) and returned to the caller; nothing is
    published and nothing else is sent. *)
Theorem uncached_lookup_fetches_and_caches (now now' : Z)
    (appInstanceId : string) (es : list Event) (s s2 : State)
    (response : JsonRpcResponse) (info : AppInstanceInfo) :
  well_formed s → appInstances s !! appInstanceId = None →
  appInstanceId ∉ Object_prototype_names →
  RpcMethodName_GET_APP_INSTANCE_DETAILS T ≠ "" →
  RpcMethodName_GET_APP_INSTANCE_DETAILS T ≠ ErrorType_ERROR T →
  (∀ t, t ∈ timers s → t_requestId t ≠ now) →
  Forall (leaves_alone (length (calls s)) now) es →
  run T (GetOrCreateAppInstance now appInstanceId None :: es) s = Ok s2 →
  jobs s2 = [] →
  id response = Some now →
  type (result response) = RpcMethodName_GET_APP_INSTANCE_DETAILS T →
  body (result response) = GetAppInstanceDetailsResult info →
  sent (getOrCreateAppInstance T now appInstanceId None KCaller s) =
    sent s ++ [jsonRpcDeserialize (AppInstanceIdParams appInstanceId)
                 (RpcMethodName_GET_APP_INSTANCE_DETAILS T) now] ∧
  ∃ s5, run T [NodeMessage now' (Rpc response); RunJob; RunJob] s2 = Ok s5 ∧
        appInstances s5 =
          <[appInstanceId := new_AppInstance info]> (appInstances s2) ∧
        delivered s5 = delivered s2 ++ [VAppInstance (new_AppInstance info)] ∧
        emitted s5 = emitted s2 ∧ sent s5 = sent s2 ∧ jobs s5 = [].
Proof. apply fetch_delivers. Qed.

Lemma run_app (es1 es2 : list Event) (s s1 : State) :
  run T es1 s = Ok s1 → run T (es1 ++ es2) s = run T es2 s1.
Proof.
  revert s. induction es1 as [|e es1 IH]; intros s; simpl.
  - by intros [= ->].
  - destruct (step T e s); try discriminate. apply IH.
Qed.

(** What the lookup that misses leaves behind before the node answers. *)
Lemma fetch_starts (now : Z) (appInstanceId : string) (k : Cont) (s : State) :
  appInstances s !! appInstanceId = None →
  appInstanceId ∉ Object_prototype_names →
  RpcMethodName_GET_APP_INSTANCE_DETAILS T ≠ "" →
  let s1 := getOrCreateAppInstance T now appInstanceId None k s in
  sent s1 =
    sent s ++ [jsonRpcDeserialize (AppInstanceIdParams appInstanceId)
                 (RpcMethodName_GET_APP_INSTANCE_DETAILS T) now] ∧
  jobs s1 = jobs s ∧ appInstances s1 = appInstances s ∧
  delivered s1 = delivered s ∧ calls s1 = calls s ++ [KFetched appInstanceId k] ∧
  ∃ t, timers s1 = timers s ++ [t] ∧ t_requestId t = now.
Proof.
  intros Hnone Hown Hm. simpl. unfold getOrCreateAppInstance.
  rewrite Hnone, decide_False by done.
  destruct (callRawNodeMethod_issues T now _ (AppInstanceIdParams appInstanceId)
              (KFetched appInstanceId k) s Hm)
    as (_ & Ht & Hs & Hc & _ & Hj & _ & Ha).
  split_and!; try done.
  - unfold callRawNodeMethod, falsy. by rewrite bool_decide_eq_false_2.
  - by eexists.
Qed.

(** Property X15: lookups that miss are not shared (GET_APP_INSTANCE_DETAILS
    being a non-empty method name other than the error tag). In a Provider
    state reached by the class itself (every listener, timer and logged
    settlement belongs to a call already made) and with no continuation
    waiting, two getOrCreateAppInstance calls without hint for one id that
    has no record and is not the name of an inherited member, made in
    different milliseconds (so their requests have different ids, which no
    armed timer's request has), send two requests; when the node answers the
    first and then the second, each caller receives the record made from the
    answer to its own request, and the registry keeps the record of the
    answer that came last. Two lookups within one millisecond share a
    request id and fall under the defect of C1. *)
Theorem concurrent_misses_fetch_twice (now1 now2 n1 n2 : Z)
    (appInstanceId : string) (s : State) (response1 response2 : JsonRpcResponse)
    (info1 info2 : AppInstanceInfo) :
  well_formed s → appInstances s !! appInstanceId = None →
  appInstanceId ∉ Object_prototype_names → jobs s = [] →
  RpcMethodName_GET_APP_INSTANCE_DETAILS T ≠ "" →
  RpcMethodName_GET_APP_INSTANCE_DETAILS T ≠ ErrorType_ERROR T →
  now1 ≠ now2 →
  (∀ t, t ∈ timers s → t_requestId t ≠ now1 ∧ t_requestId t ≠ now2) →
  id response1 = Some now1 → id response2 = Some now2 →
  type (result response1) = RpcMethodName_GET_APP_INSTANCE_DETAILS T →
  type (result response2) = RpcMethodName_GET_APP_INSTANCE_DETAILS T →
  body (result response1) = GetAppInstanceDetailsResult info1 →
  body (result response2) = GetAppInstanceDetailsResult info2 →
  ∃ s',
    run T [ GetOrCreateAppInstance now1 appInstanceId None;
            GetOrCreateAppInstance now2 appInstanceId None;
            NodeMessage n1 (Rpc response1); RunJob; RunJob;
            NodeMessage n2 (Rpc response2); RunJob; RunJob ] s = Ok s' ∧
    sent s' =
      sent s ++
      [ jsonRpcDeserialize (AppInstanceIdParams appInstanceId)
          (RpcMethodName_GET_APP_INSTANCE_DETAILS T) now1;
        jsonRpcDeserialize (AppInstanceIdParams appInstanceId)
          (RpcMethodName_GET_APP_INSTANCE_DETAILS T) now2 ] ∧
    delivered s' =
      delivered s ++
      [ VAppInstance (new_AppInstance info1);
        VAppInstance (new_AppInstance info2) ] ∧
    appInstances s' =
      <[appInstanceId := new_AppInstance info2]> (appInstances s).
Proof.
  intros Hwf Hnone Hown Hjobs Hm Herr Hne Hfresh Hid1 Hid2 Hty1 Hty2 Hb1 Hb2.
  set (s1 := getOrCreateAppInstance T now1 appInstanceId None KCaller s).
  set (s2 := getOrCreateAppInstance T now2 appInstanceId None KCaller s1).
  destruct (fetch_starts now1 appInstanceId KCaller s Hnone Hown Hm)
    as (Hs1 & Hj1 & Ha1 & Hd1 & Hc1 & t1 & Ht1 & Hr1).
  fold s1 in Hs1, Hj1, Ha1, Hd1, Hc1, Ht1.
  assert (appInstances s1 !! appInstanceId = None) as Hnone1
    by (by rewrite Ha1).
  destruct (fetch_starts now2 appInstanceId KCaller s1 Hnone1 Hown Hm)
    as (Hs2 & Hj2 & Ha2 & Hd2 & Hc2 & t2 & Ht2 & Hr2).
  fold s2 in Hs2, Hj2, Ha2, Hd2, Hc2, Ht2.
  assert (well_formed s1) as Hwf1
    by (by apply (run_well_formed T
                    [GetOrCreateAppInstance now1 appInstanceId None] s s1 Hwf)).
  destruct (fetch_delivers now1 n1 appInstanceId
              [GetOrCreateAppInstance now2 appInstanceId None] s s2
              response1 info1 Hwf Hnone Hown Hm Herr)
    as (_ & s5 & Hrun5 & Ha5 & Hd5 & _ & Hs5 & Hj5); try done.
  { intros t Hin. by apply Hfresh. }
  { repeat constructor; simpl; congruence. }
  { by rewrite Hj2, Hj1. }
  destruct (fetch_delivers now2 n2 appInstanceId
              [NodeMessage n1 (Rpc response1); RunJob; RunJob] s1 s5
              response2 info2 Hwf1 Hnone1 Hown Hm Herr)
    as (_ & s8 & Hrun8 & Ha8 & Hd8 & _ & Hs8 & _); try done.
  { intros t. rewrite Ht1.
    intros [Hin| ->%list_elem_of_singleton]%elem_of_app;
      [by apply Hfresh|congruence]. }
  { repeat constructor; simpl; rewrite ?Hid1; congruence. }
  exists s8. split.
  { change (run T ([ GetOrCreateAppInstance now1 appInstanceId None;
                     GetOrCreateAppInstance now2 appInstanceId None ] ++
                   [ NodeMessage n1 (Rpc response1); RunJob; RunJob ] ++
                   [ NodeMessage n2 (Rpc response2); RunJob; RunJob ]) s
            = Ok s8).
    rewrite (run_app _ _ s s2) by done.
    by rewrite (run_app _ _ s2 s5) by done. }
  split_and!.
  - by rewrite Hs8, Hs5, Hs2, Hs1, <- app_assoc.
  - by rewrite Hd8, Hd5, Hd2, Hd1, <- app_assoc.
  - by rewrite Ha8, Ha5, Ha2, Ha1, insert_insert_eq.
Qed.









End Calls.

(** *** The theorems above at concrete inputs *)

Lemma answered_call_resolves_witness :
  ∃ s2 s3,
    run sample_types [CallRawNodeMethod 6 "deposit" (OtherParams [])]
      (callRawNodeMethod sample_types 5 "install" (OtherParams []) KCaller
         initial) = Ok s2 ∧
    step sample_types
      (NodeMessage 9
         (Rpc {| result := {| type := "install"; body := OtherData [] |};
                 id := Some 5 |})) s2 = Ok s3 ∧
    settled s3 =
      settled s2 ++
      [(0%nat, Resolve {| type := "install"; body := OtherData [] |})] ∧
    jobs s3 =
      jobs s2 ++ [(KCaller, VPayload {| type := "install"; body := OtherData [] |})].
Proof.
  assert (∃ s2,
    run sample_types [CallRawNodeMethod 6 "deposit" (OtherParams [])]
      (callRawNodeMethod sample_types 5 "install" (OtherParams []) KCaller
         initial) = Ok s2) as [s2 Hrun] by (eexists; reflexivity).
  destruct (answered_call_resolves sample_types 5 9 "install" (OtherParams [])
              KCaller [CallRawNodeMethod 6 "deposit" (OtherParams [])]
              initial s2
              {| result := {| type := "install"; body := OtherData [] |};
                 id := Some 5 |}
              well_formed_initial)
    as (s3 & Hstep & Hset & Hjobs & _);
    [discriminate
    | intros t Hin; by apply not_elem_of_nil in Hin
    | repeat constructor; simpl; discriminate
    | exact Hrun
    | reflexivity
    | reflexivity
    | discriminate |].
  exists s2, s3. by split_and!.
Defined.


Lemma response_after_timeout_is_orphaned_witness :
  ∃ s3 s4,
    step sample_types (TimerFires 0%nat)
      (callRawNodeMethod sample_types 5 "install" (OtherParams []) KCaller
         initial) = Ok s3 ∧
    step sample_types
      (NodeMessage 40000
         (Rpc {| result := {| type := "install"; body := OtherData [] |};
                 id := Some 5 |})) s3 = Ok s4 ∧
    settled s4 = settled s3 ∧ settle_count 0%nat s4 = 1%nat.
Proof.
  destruct (response_after_timeout_is_orphaned sample_types 5 40000 "install"
              (OtherParams []) KCaller [] initial
              (callRawNodeMethod sample_types 5 "install" (OtherParams [])
                 KCaller initial)
              {| result := {| type := "install"; body := OtherData [] |};
                 id := Some 5 |}
              well_formed_initial)
    as (s3 & s4 & Hfire & Hstep & _ & Hset & Hcount);
    [discriminate
    | intros t Hin; by apply not_elem_of_nil in Hin
    | constructor
    | reflexivity
    | reflexivity
    | discriminate |].
  exists s3, s4. by split_and!.
Defined.

Lemma pending_entries_have_armed_timers_witness :
  ∃ s,
    run sample_types
      [ CallRawNodeMethod 5 "install" (OtherParams []); TimerFires 0%nat;
        CallRawNodeMethod 6 "deposit" (OtherParams []) ] initial = Ok s ∧
    (∀ i l, requestListeners s !! i = Some l →
            ∃ t, t ∈ timers s ∧ t_requestId t = i).
Proof.
  assert (∃ s,
    run sample_types
      [ CallRawNodeMethod 5 "install" (OtherParams []); TimerFires 0%nat;
        CallRawNodeMethod 6 "deposit" (OtherParams []) ] initial = Ok s)
    as [s Hrun] by (eexists; reflexivity).
  exists s. split; [exact Hrun|].
  exact (proj1 (pending_entries_have_armed_timers sample_types _ s Hrun)).
Defined.

Lemma pending_requests_were_sent_witness :
  ∃ s,
    run sample_types
      [ CallRawNodeMethod 5 "install" (OtherParams []);
        CallRawNodeMethod 6 "" (OtherParams []);
        GetOrCreateAppInstance 7 "0xABC" None ] initial = Ok s ∧
    (∀ r, r ∈ sent s → methodName r ≠ "").
Proof.
  assert (∃ s,
    run sample_types
      [ CallRawNodeMethod 5 "install" (OtherParams []);
        CallRawNodeMethod 6 "" (OtherParams []);
        GetOrCreateAppInstance 7 "0xABC" None ] initial = Ok s)
    as [s Hrun] by (eexists; reflexivity).
  exists s. split; [exact Hrun|].
  exact (proj1 (pending_requests_were_sent sample_types _ s Hrun)).
Defined.

Lemma cached_record_is_replaced_only_by_its_fetch_witness :
  let first := {| identityHash := "0xABC"; otherFields := [("timeout", "10")] |} in
  let second := {| identityHash := "0xABC"; otherFields := [("timeout", "99")] |} in
  let s := set_appInstances (insert "0xABC" (new_AppInstance first)) initial in
  ∃ s',
    step sample_types
      (NodeMessage 5
         (PlainEvent {| type := "rejectInstallEvent";
                        body := RejectInstallEventData second |})) s = Ok s' ∧
    appInstances s' !! "0xABC" = Some (new_AppInstance first).
Proof.
  simpl.
  assert (∃ s',
    step sample_types
      (NodeMessage 5
         (PlainEvent
            {| type := "rejectInstallEvent";
               body := RejectInstallEventData
                         {| identityHash := "0xABC";
                            otherFields := [("timeout", "99")] |} |}))
      (set_appInstances
         (insert "0xABC"
            (new_AppInstance
               {| identityHash := "0xABC";
                  otherFields := [("timeout", "10")] |})) initial) = Ok s')
    as [s' Hstep] by (eexists; reflexivity).
  exists s'. split; [exact Hstep|].
  destruct (cached_record_is_replaced_only_by_its_fetch sample_types _ _ s'
              "0xABC"
              (new_AppInstance
                 {| identityHash := "0xABC";
                    otherFields := [("timeout", "10")] |}) Hstep)
    as [Hsame|[Hjob _]]; [reflexivity|exact Hsame|discriminate].
Defined.

Lemma registry_never_forgets_witness :
  let first := {| identityHash := "0xABC"; otherFields := [("timeout", "10")] |} in
  let second := {| identityHash := "0xABC"; otherFields := [("timeout", "99")] |} in
  let s := set_appInstances (insert "0xABC" (new_AppInstance first)) initial in
  ∃ s',
    run sample_types
      [ GetOrCreateAppInstance 5 "0xABC" (Some second);
        CallRawNodeMethod 6 "install" (OtherParams []);
        TimerFires 0%nat ] s = Ok s' ∧
    is_Some (appInstances s' !! "0xABC").
Proof.
  simpl.
  assert (∃ s',
    run sample_types
      [ GetOrCreateAppInstance 5 "0xABC"
          (Some {| identityHash := "0xABC";
                   otherFields := [("timeout", "99")] |});
        CallRawNodeMethod 6 "install" (OtherParams []);
        TimerFires 0%nat ]
      (set_appInstances
         (insert "0xABC"
            (new_AppInstance
               {| identityHash := "0xABC";
                  otherFields := [("timeout", "10")] |})) initial) = Ok s')
    as [s' Hrun] by (eexists; reflexivity).
  exists s'. split; [exact Hrun|].
  refine (proj1 (registry_never_forgets sample_types _ _ s' "0xABC"
                   (new_AppInstance
                      {| identityHash := "0xABC";
                         otherFields := [("timeout", "10")] |}) Hrun _)).
  reflexivity.
Defined.

Lemma events_are_published_under_their_type_witness :
  ∃ s,
    run sample_types
      [ CallRawNodeMethod 5 "" (OtherParams []);
        NodeMessage 6 (PlainEvent {| type := "depositEvent"; body := OtherData [] |}) ]
      initial = Ok s ∧
    (length (emitted s) ≤ 2)%nat.
Proof.
  assert (∃ s,
    run sample_types
      [ CallRawNodeMethod 5 "" (OtherParams []);
        NodeMessage 6 (PlainEvent {| type := "depositEvent"; body := OtherData [] |}) ]
      initial = Ok s) as [s Hrun] by (eexists; reflexivity).
  exists s. split; [exact Hrun|].
  exact (proj2 (events_are_published_under_their_type sample_types _ s Hrun)).
Defined.

Lemma uncached_lookup_fetches_and_caches_witness :
  let info := {| identityHash := "0xDEF"; otherFields := [("timeout", "10")] |} in
  ∃ s2 s5,
    run sample_types [GetOrCreateAppInstance 5 "0xABC" None] initial = Ok s2 ∧
    run sample_types
      [ NodeMessage 9
          (Rpc {| result := {| type := "getAppInstanceDetails";
                               body := GetAppInstanceDetailsResult info |};
                  id := Some 5 |});
        RunJob; RunJob ] s2 = Ok s5 ∧
    appInstances s5 = <["0xABC" := new_AppInstance info]> (appInstances s2) ∧
    delivered s5 = delivered s2 ++ [VAppInstance (new_AppInstance info)].
Proof.
  simpl.
  assert (∃ s2,
    run sample_types [GetOrCreateAppInstance 5 "0xABC" None] initial = Ok s2 ∧
    jobs s2 = []) as (s2 & Hrun & Hjobs) by (eexists; split; reflexivity).
  destruct (uncached_lookup_fetches_and_caches sample_types 5 9 "0xABC" []
              initial s2
              {| result :=
                   {| type := "getAppInstanceDetails";
                      body := GetAppInstanceDetailsResult
                                {| identityHash := "0xDEF";
                                   otherFields := [("timeout", "10")] |} |};
                 id := Some 5 |}
              {| identityHash := "0xDEF"; otherFields := [("timeout", "10")] |}
              well_formed_initial)
    as (_ & s5 & Hrun5 & Hreg & Hdel & _);
    [reflexivity
    | compute_done
    | discriminate
    | discriminate
    | intros t Hin; by apply not_elem_of_nil in Hin
    | constructor
    | exact Hrun
    | exact Hjobs
    | reflexivity
    | reflexivity
    | reflexivity |].
  exists s2, s5. by split_and!.
Defined.

Lemma concurrent_misses_fetch_twice_witness :
  let first := {| identityHash := "0xABC"; otherFields := [("timeout", "10")] |} in
  let second := {| identityHash := "0xABC"; otherFields := [("timeout", "99")] |} in
  ∃ s',
    run sample_types
      [ GetOrCreateAppInstance 5 "0xABC" None;
        GetOrCreateAppInstance 6 "0xABC" None;
        NodeMessage 7
          (Rpc {| result := {| type := "getAppInstanceDetails";
                               body := GetAppInstanceDetailsResult first |};
                  id := Some 5 |});
        RunJob; RunJob;
        NodeMessage 8
          (Rpc {| result := {| type := "getAppInstanceDetails";
                               body := GetAppInstanceDetailsResult second |};
                  id := Some 6 |});
        RunJob; RunJob ] initial = Ok s' ∧
    delivered s' =
      [VAppInstance (new_AppInstance first);
       VAppInstance (new_AppInstance second)] ∧
    appInstances s' !! "0xABC" = Some (new_AppInstance second).
Proof.
  simpl.
  destruct (concurrent_misses_fetch_twice sample_types 5 6 7 8 "0xABC" initial
              {| result :=
                   {| type := "getAppInstanceDetails";
                      body := GetAppInstanceDetailsResult
                                {| identityHash := "0xABC";
                                   otherFields := [("timeout", "10")] |} |};
                 id := Some 5 |}
              {| result :=
                   {| type := "getAppInstanceDetails";
                      body := GetAppInstanceDetailsResult
                                {| identityHash := "0xABC";
                                   otherFields := [("timeout", "99")] |} |};
                 id := Some 6 |}
              {| identityHash := "0xABC"; otherFields := [("timeout", "10")] |}
              {| identityHash := "0xABC"; otherFields := [("timeout", "99")] |}
              well_formed_initial)
    as (s' & Hrun & _ & Hdel & Hreg);
    [reflexivity
    | compute_done
    | reflexivity
    | discriminate
    | discriminate
    | discriminate
    | intros t Hin; by apply not_elem_of_nil in Hin
    | reflexivity | reflexivity | reflexivity | reflexivity
    | reflexivity | reflexivity |].
  exists s'. split; [exact Hrun|]. split; [exact Hdel|].
  rewrite Hreg. apply lookup_insert_eq.
Defined.





End ProviderRunFacts.
